(** * elm-peer: the PeerPort command/event adapter (src/index.ts)

    A shallow embedding of the [PeerPort] class: the handle registry
    ([MapStorage]), the command dispatcher ([handleMsg] and the five
    command handlers), and the three lifecycle subscribers
    ([subscribeToPeerEvents], [handleDataMsg], [handleMediaMsg]).

    The adapter is effectful: it writes the registry, draws identifiers
    from [nanoid], calls the PeerJS objects, attaches closures to them and
    passes events to the injected [send] function.  Every method is a
    computation in a small monad [M] that threads the state, collects the
    events passed to [send] and propagates thrown values. *)

From Stdlib Require Import Floats.SpecFloat.
From stdpp Require Import gmap strings list fin_maps.

Local Open Scope string_scope.
Local Open Scope list_scope.
Set Warnings "-register-all".

(** ** JavaScript values *)

(** The run-time values the adapter handles.  Primitives and their wrapper
    objects are kept apart because [instanceof] tells them apart:
    ["hello" instanceof String] is [false], [new String("hello") instanceof
    String] is [true].  A number is an IEEE-754 double, given by its sign,
    mantissa and exponent.  PeerJS objects are references into the tables
    of the state. *)
Inductive JsValue : Type :=
  | VUndefined
  | VNull
  | VBool (b : bool)
  | VNum (n : spec_float)
  | VStr (s : string)
  | VBooleanObject (b : bool)          (* new Boolean(b) *)
  | VNumberObject (n : spec_float)     (* new Number(n)  *)
  | VStringObject (s : string)         (* new String(s)  *)
  | VArray (items : list JsValue)
  | VObject (props : list (string * JsValue))
  | VBytes (bytes : list Byte.byte)    (* ArrayBuffer, typed array, Blob *)
  | VError (name message : string)
  | VJsonData (_data : JsValue)        (* instance of class JsonData *)
  | VBlobData (_data : JsValue)        (* instance of class BlobData *)
  | VPeer (ref : nat)
  | VDataConnection (ref : nat)
  | VMediaConnection (ref : nat)
  | VMediaStream (ref : nat).

(** [typeof v] for the values above. *)
Definition typeof (v : JsValue) : string :=
  match v with
  | VUndefined => "undefined"
  | VBool _ => "boolean"
  | VNum _ => "number"
  | VStr _ => "string"
  | _ => "object"
  end.

(** A command field that is absent reads as [undefined]. *)
Definition js (f : option string) : JsValue :=
  match f with
  | Some s => VStr s
  | None => VUndefined
  end.

(** Truthiness of an optional string field ([data.peerID ? .. : ..],
    [if (data.streamID)]): [undefined] and the empty string are falsy. *)
Definition truthy (f : option string) : bool :=
  match f with
  | Some s => negb (String.eqb s "")
  | None => false
  end.

(** ** Events (lines 241-356) *)

(** The object literals the adapter passes to [send].  The first fifteen
    constructors are the members of the declared union [PeerEvent]; the
    last two are the literals of lines 150-155 and 159-165, whose [type]
    tag is not a member of that union.  Fields that hold a captured
    variable are [JsValue]s, since the variable may still be
    [undefined]. *)
Inductive PeerEvent : Type :=
  | PeerDoesNotExist (peerID : JsValue)
  | PeerOpened (peerID : JsValue)
  | PeerDisconnected (peerID : JsValue)
  | PeerClosed (peerID : JsValue)
  | PeerError (peerID err : JsValue)
  | DataOpened (dataID : string) (local remote : JsValue)
  | DataClosed (dataID : string) (local remote : JsValue)
  | DataError (dataID : string) (local remote err : JsValue)
  | DataReceivedJSON (dataID : string) (local remote data : JsValue)
  | DataReceivedBlob (dataID blobID : string) (local remote : JsValue)
      (contentType : string)
  | MediaStreamReceived (mediaConnectionID streamID : string)
      (local remote : JsValue)
  | MediaConnectionClosed (mediaConnectionID : string) (local remote : JsValue)
  | MediaConnectionError (mediaConnectionID : string)
      (local remote err : JsValue)
  | MediaConnectionDoesNotExist (mediaConnectionID : JsValue)
  | StreamDoesNotExist (streamID : JsValue)
  | MediaStreamClosed (mediaConnectionID : string) (local remote : JsValue)
  | MediaStreamError (mediaConnectionID : string) (local remote err : JsValue).

Module Event.
(** The [type] field of an event. *)
Definition type (e : PeerEvent) : string :=
  match e with
  | PeerDoesNotExist _ => "PeerDoesNotExist"
  | PeerOpened _ => "PeerOpened"
  | PeerDisconnected _ => "PeerDisconnected"
  | PeerClosed _ => "PeerClosed"
  | PeerError _ _ => "PeerError"
  | DataOpened _ _ _ => "DataOpened"
  | DataClosed _ _ _ => "DataClosed"
  | DataError _ _ _ _ => "DataError"
  | DataReceivedJSON _ _ _ _ => "DataReceivedJSON"
  | DataReceivedBlob _ _ _ _ _ => "DataReceivedBlob"
  | MediaStreamReceived _ _ _ _ => "MediaStreamReceived"
  | MediaConnectionClosed _ _ _ => "MediaConnectionClosed"
  | MediaConnectionError _ _ _ _ => "MediaConnectionError"
  | MediaConnectionDoesNotExist _ => "MediaConnectionDoesNotExist"
  | StreamDoesNotExist _ => "StreamDoesNotExist"
  | MediaStreamClosed _ _ _ => "MediaStreamClosed"
  | MediaStreamError _ _ _ _ => "MediaStreamError"
  end.

(** The type tags of the declared union [PeerEvent] (lines 243-258). *)
Definition declared_types : list string :=
  [ "PeerDoesNotExist"; "PeerOpened"; "PeerDisconnected"; "PeerClosed";
    "PeerError"; "DataOpened"; "DataClosed"; "DataError";
    "DataReceivedJSON"; "DataReceivedBlob"; "MediaStreamReceived";
    "MediaConnectionClosed"; "MediaConnectionError";
    "MediaConnectionDoesNotExist"; "StreamDoesNotExist" ].

Definition declared (e : PeerEvent) : bool :=
  bool_decide (type e ∈ declared_types).
End Event.

(** ** Commands (lines 358-392) *)

(** An inbound message: an object with a [type] tag and the string fields
    the handlers read.  An absent field is [None] and reads as
    [undefined]. *)
Record PeerCmd : Type := mkCmd {
  type : string;
  peerID : option string;
  local : option string;
  remote : option string;
  streamID : option string;
  mediaConnectionID : option string
}.

(** The five declared command shapes. *)
Definition NewPeer (peerID : option string) : PeerCmd :=
  mkCmd "NewPeer" peerID None None None None.
Definition ConnectToPeer (local remote : string) : PeerCmd :=
  mkCmd "ConnectToPeer" None (Some local) (Some remote) None None.
Definition CallPeer (local remote streamID : string) : PeerCmd :=
  mkCmd "CallPeer" None (Some local) (Some remote) (Some streamID) None.
Definition ReconnectToServer (peerID : string) : PeerCmd :=
  mkCmd "ReconnectToServer" (Some peerID) None None None None.
Definition AnswerMediaConnection (mediaConnectionID : string)
    (streamID : option string) : PeerCmd :=
  mkCmd "AnswerMediaConnection" None None None streamID
    (Some mediaConnectionID).

(** The message as a value, for the methods that receive it as an
    ordinary argument. *)
Definition cmd_value (msg : PeerCmd) : JsValue :=
  VObject
    (("type", VStr (type msg)) ::
     omap (fun '(k, f) => (fun s => (k, VStr s)) <$> f)
       [ ("peerID", peerID msg); ("local", local msg);
         ("remote", remote msg); ("streamID", streamID msg);
         ("mediaConnectionID", mediaConnectionID msg) ]).

(** ** The handle registry (lines 394-407) *)

(** [MapStorage] wraps a [Map<string, any>]: [get] of an absent key is
    [undefined]. *)
Module MapStorage.
Definition get (m : gmap string JsValue) (id : string) : JsValue :=
  default VUndefined (m !! id).
Definition set (m : gmap string JsValue) (id : string) (data : JsValue)
  : gmap string JsValue := <[id := data]> m.
Definition delete (m : gmap string JsValue) (id : string)
  : gmap string JsValue := base.delete id m.
End MapStorage.

(** ** State *)

(** A PeerJS [Peer] as the adapter sees it: its [id] property, which PeerJS
    owns, and one entry per call of [subscribeToPeerEvents] on it.  Such a
    call attaches six closures that share one variable [let peerID]; the
    entry is the current value of that variable. *)
Record PeerObj : Type := mkPeer {
  id : JsValue;
  peer_subs : list JsValue
}.

(** A [DataConnection] or [MediaConnection]: its [peer] property (the
    remote identifier, owned by PeerJS) and one entry per call of
    [handleDataMsg] (resp. [handleMediaMsg]) on it.  Such a call attaches
    its closures, which share the constants [dataID] (resp.
    [mediaConnectionID]) and [local]; the entry is that pair. *)
Record ConnObj : Type := mkConn {
  peer : JsValue;
  conn_subs : list (string * JsValue)
}.

(** The calls made on PeerJS objects. *)
Inductive PeerJsCall : Type :=
  | NewPeerCall (id : option string)                       (* new Peer(id?) *)
  | ConnectCall (peer : nat) (remote : JsValue)            (* peer.connect  *)
  | CallCall (peer : nat) (remote : JsValue) (stream : nat)  (* peer.call   *)
  | ReconnectCall (peer : nat)                             (* peer.reconnect *)
  | AnswerCall (conn : nat) (stream : option nat).         (* conn.answer   *)

Record PortState : Type := mkState {
  storage : gmap string JsValue;     (* #storage, the default MapStorage *)
  nanoid_seq : nat -> string;        (* what nanoid() yields, in order *)
  drawn : nat;                       (* how many of them were drawn *)
  peers : list PeerObj;
  dataConns : list ConnObj;
  mediaConns : list ConnObj;
  calls : list PeerJsCall
}.

Definition set_storage (f : gmap string JsValue -> gmap string JsValue)
    (st : PortState) : PortState :=
  mkState (f (storage st)) (nanoid_seq st) (drawn st) (peers st)
    (dataConns st) (mediaConns st) (calls st).
Definition set_drawn (n : nat) (st : PortState) : PortState :=
  mkState (storage st) (nanoid_seq st) n (peers st) (dataConns st)
    (mediaConns st) (calls st).
Definition set_peers (f : list PeerObj -> list PeerObj) (st : PortState)
    : PortState :=
  mkState (storage st) (nanoid_seq st) (drawn st) (f (peers st))
    (dataConns st) (mediaConns st) (calls st).
Definition set_dataConns (f : list ConnObj -> list ConnObj) (st : PortState)
    : PortState :=
  mkState (storage st) (nanoid_seq st) (drawn st) (peers st)
    (f (dataConns st)) (mediaConns st) (calls st).
Definition set_mediaConns (f : list ConnObj -> list ConnObj) (st : PortState)
    : PortState :=
  mkState (storage st) (nanoid_seq st) (drawn st) (peers st) (dataConns st)
    (f (mediaConns st)) (calls st).
Definition log_call (c : PeerJsCall) (st : PortState) : PortState :=
  mkState (storage st) (nanoid_seq st) (drawn st) (peers st) (dataConns st)
    (mediaConns st) (calls st ++ [c]).

(** ** The monad of the adapter's methods *)

Inductive Result (A : Type) : Type :=
  | Return (a : A)
  | Throw (exn : JsValue).
Arguments Return {A} a.
Arguments Throw {A} exn.

(** A method run from a state ends with a result or a thrown value, a new
    state, and the events it passed to [send], oldest first. *)
Definition M (A : Type) : Type :=
  PortState -> Result A * PortState * list PeerEvent.

Definition ret {A} (a : A) : M A := fun st => (Return a, st, []).

Definition bind {A B} (m : M A) (k : A -> M B) : M B :=
  fun st =>
    match m st with
    | (Return a, st1, out1) =>
        match k a st1 with
        | (r, st2, out2) => (r, st2, out1 ++ out2)
        end
    | (Throw e, st1, out1) => (Throw e, st1, out1)
    end.

Notation "'let*' x ':=' m 'in' k" := (bind m (fun x => k))
  (at level 10, x name, m at level 100, k at level 200).
Notation "'do' m 'then' k" := (bind m (fun _ => k))
  (at level 10, m at level 100, k at level 200).

Definition throw {A} (e : JsValue) : M A := fun st => (Throw e, st, []).
Definition send (msg : PeerEvent) : M unit := fun st => (Return tt, st, [msg]).
Definition gets {A} (f : PortState -> A) : M A :=
  fun st => (Return (f st), st, []).
Definition modify (f : PortState -> PortState) : M unit :=
  fun st => (Return tt, f st, []).

(** Runs [f] on every element, left to right, stopping at the first
    throw. *)
Fixpoint for_each {A} (f : A -> M unit) (l : list A) : M unit :=
  match l with
  | [] => ret tt
  | x :: l' => do f x then for_each f l'
  end.

Definition result_of {A} (r : Result A * PortState * list PeerEvent) := r.1.1.
Definition state_of {A} (r : Result A * PortState * list PeerEvent) := r.1.2.
Definition sent_of {A} (r : Result A * PortState * list PeerEvent) := r.2.

(** The errors the engine raises itself. *)
Definition TypeError (message : string) : JsValue := VError "TypeError" message.
Definition RangeError (message : string) : JsValue :=
  VError "RangeError" message.

(** ** Collaborators *)

(** Modelled from the spec: identifier generation is an outside capability
    (the package nanoid) that produces opaque strings.  [nanoid()] yields
    the next identifier of the sequence the state holds. *)
Definition nanoid : M string :=
  fun st =>
    (Return (nanoid_seq st (drawn st)), set_drawn (S (drawn st)) st, []).

(** [this.#storage.get(id)]: [id] is a string or [undefined]; no key other
    than a string is ever set, so any other key is unbound. *)
Definition storage_get (id : JsValue) : M JsValue :=
  gets (fun st =>
    match id with
    | VStr s => MapStorage.get (storage st) s
    | _ => VUndefined
    end).

Definition storage_set (id : string) (data : JsValue) : M unit :=
  modify (set_storage (fun m => MapStorage.set m id data)).

(** [this.#storage.delete(id)]: deleting a key that is not a string removes
    nothing. *)
Definition storage_delete (id : JsValue) : M unit :=
  match id with
  | VStr s => modify (set_storage (fun m => MapStorage.delete m s))
  | _ => ret tt
  end.

(** ** PeerJS objects *)

(** Modelled from the spec: the peer-to-peer capability (PeerJS) is outside
    the source; the adapter consumes it through create, connect, call,
    reconnect and answer, and through the events it emits.  The five calls
    are recorded in [calls]; the objects they create start without
    listeners.

    [new Peer(id?)]: a new peer object.  Its [id] reads as the requested
    identifier until PeerJS assigns one. *)
Definition new_Peer (requested : option string) : M nat :=
  fun st =>
    (Return (length (peers st)),
     log_call (NewPeerCall requested)
       (set_peers (fun l => l ++ [mkPeer (js requested) []]) st),
     []).

(** Modelled from the spec: [peer.connect(remote)] yields a new data
    connection whose [peer] property is [remote]. *)
Definition peer_connect (p : nat) (remote : JsValue) : M nat :=
  fun st =>
    (Return (length (dataConns st)),
     log_call (ConnectCall p remote)
       (set_dataConns (fun l => l ++ [mkConn remote []]) st),
     []).

(** Modelled from the spec: [peer.call(remote, stream)] yields a new media
    connection whose [peer] property is [remote]. *)
Definition peer_call (p : nat) (remote : JsValue) (stream : nat) : M nat :=
  fun st =>
    (Return (length (mediaConns st)),
     log_call (CallCall p remote stream)
       (set_mediaConns (fun l => l ++ [mkConn remote []]) st),
     []).

Definition peer_reconnect (p : nat) : M unit :=
  modify (log_call (ReconnectCall p)).

Definition mediaConnection_answer (c : nat) (stream : option nat) : M unit :=
  modify (log_call (AnswerCall c stream)).

(** The properties the closures read: [peer.id] and [conn.peer]. *)
Definition id_of (st : PortState) (p : nat) : JsValue :=
  default VUndefined (id <$> peers st !! p).
Definition peer_id (p : nat) : M JsValue :=
  gets (fun st => id_of st p).
Definition conn_peer (table : PortState -> list ConnObj) (c : nat)
    : M JsValue :=
  gets (fun st => default VUndefined (peer <$> table st !! c)).

(** The variable [let peerID] of the [i]-th subscription of peer [p]. *)
Definition read_peerID (p i : nat) : M JsValue :=
  gets (fun st =>
    default VUndefined (peers st !! p ≫= fun o => peer_subs o !! i)).
Definition write_peerID (p i : nat) (v : JsValue) : M unit :=
  modify (set_peers
    (alter (fun o => mkPeer (id o) (<[i := v]> (peer_subs o))) p)).

Definition add_sub (sub : string * JsValue) (o : ConnObj) : ConnObj :=
  mkConn (peer o) (conn_subs o ++ [sub]).

(** ** Data-channel subscriber (lines 58-131) *)

(** The events of a [DataConnection] the adapter listens to, with the
    argument PeerJS passes. *)
Inductive DataCallback : Type :=
  | DataOpen
  | DataClose
  | DataErr (err : JsValue)
  | DataData (data : JsValue).

(** The closure that one call [handleDataMsg(local, conn)] attached to
    [conn] for the event of [cb]; [sub] holds its [dataID] and [local]. *)
Definition data_listener (conn : nat) (sub : string * JsValue)
    (cb : DataCallback) : M unit :=
  let '(dataID, local) := sub in
  match cb with
  | DataOpen =>
      do storage_set dataID (VDataConnection conn) then
      let* remote := conn_peer dataConns conn in
      send (DataOpened dataID local remote)
  | DataClose =>
      let* remote := conn_peer dataConns conn in
      send (DataClosed dataID local remote)
  | DataErr err =>
      let* remote := conn_peer dataConns conn in
      send (DataError dataID local remote err)
  | DataData data =>
      match data with
      | VBlobData d =>                       (* data instanceof BlobData *)
          let* blobID := nanoid in
          do storage_set blobID d then
          let* remote := conn_peer dataConns conn in
          send (DataReceivedBlob dataID blobID local remote (typeof d))
      | VJsonData d =>                       (* data instanceof JsonData *)
          let* remote := conn_peer dataConns conn in
          send (DataReceivedJSON dataID local remote d)
      | VStringObject _                      (* data instanceof String  *)
      | VNumberObject _                      (* data instanceof Number  *)
      | VBooleanObject _ =>                  (* data instanceof Boolean *)
          let* remote := conn_peer dataConns conn in
          send (DataReceivedJSON dataID local remote data)
      | _ =>
          let* blobID := nanoid in
          do storage_set blobID data then
          let* remote := conn_peer dataConns conn in
          send (DataReceivedBlob dataID blobID local remote (typeof data))
      end
  end.

(** [handleDataMsg(local, conn)].  A [conn] that is not a data connection
    has no method [on]. *)
Definition handleDataMsg (local conn : JsValue) : M unit :=
  let* dataID := nanoid in
  match conn with
  | VDataConnection c =>
      modify (set_dataConns (alter (add_sub (dataID, local)) c))
  | _ => throw (TypeError "conn.on is not a function")
  end.

(** ** Media-connection subscriber (lines 133-167) *)

Inductive MediaCallback : Type :=
  | MediaStream (stream : nat)
  | MediaClose
  | MediaErr (err : JsValue).

Definition media_listener (conn : nat) (sub : string * JsValue)
    (cb : MediaCallback) : M unit :=
  let '(mediaConnectionID, local) := sub in
  match cb with
  | MediaStream stream =>
      let* streamID := nanoid in
      do storage_set streamID (VMediaStream stream) then
      let* remote := conn_peer mediaConns conn in
      send (MediaStreamReceived mediaConnectionID streamID local remote)
  | MediaClose =>
      let* remote := conn_peer mediaConns conn in
      send (MediaStreamClosed mediaConnectionID local remote)
  | MediaErr err =>
      let* remote := conn_peer mediaConns conn in
      send (MediaStreamError mediaConnectionID local remote err)
  end.

Definition handleMediaMsg (local conn : JsValue) : M unit :=
  let* mediaConnectionID := nanoid in
  do storage_set mediaConnectionID conn then
  match conn with
  | VMediaConnection c =>
      modify (set_mediaConns (alter (add_sub (mediaConnectionID, local)) c))
  | _ => throw (TypeError "conn.on is not a function")
  end.

(** ** Peer-session subscriber (lines 28-56) *)

Inductive PeerCallback : Type :=
  | PeerOpen (id : string)
  | PeerClose
  | PeerDisconnect (id : string)
  | PeerErr (err : JsValue)
  | PeerConnection (conn : nat)
  | PeerCall (conn : nat).

(** The closure that the [i]-th call of [subscribeToPeerEvents(peer)]
    attached to [peer] for the event of [cb]. *)
Definition peer_listener (peer i : nat) (cb : PeerCallback) : M unit :=
  match cb with
  | PeerOpen id =>
      do write_peerID peer i (VStr id) then
      do storage_set id (VPeer peer) then
      let* peerID := read_peerID peer i in
      send (PeerOpened peerID)
  | PeerClose =>
      let* peer_id := peer_id peer in
      do storage_delete peer_id then
      let* peerID := read_peerID peer i in
      send (PeerClosed peerID)
  | PeerDisconnect id =>
      send (PeerDisconnected (VStr id))
  | PeerErr err =>
      let* peerID := read_peerID peer i in
      send (PeerError peerID err)
  | PeerConnection conn =>
      let* peerID := read_peerID peer i in
      handleDataMsg peerID (VDataConnection conn)
  | PeerCall conn =>
      let* peerID := read_peerID peer i in
      handleMediaMsg peerID (VMediaConnection conn)
  end.

(** [subscribeToPeerEvents(peer)]: a new variable [peerID], still
    [undefined], and six closures over it. *)
Definition subscribeToPeerEvents (peer : JsValue) : M unit :=
  match peer with
  | VPeer p =>
      modify (set_peers
        (alter (fun o => mkPeer (id o) (peer_subs o ++ [VUndefined])) p))
  | _ => throw (TypeError "peer.on is not a function")
  end.

(** ** PeerJS emitting an event *)

(** The listeners of the event run in the order they were attached; a throw
    ends the emission. *)
Definition emit_peer (p : nat) (cb : PeerCallback) : M unit :=
  let* n := gets (fun st =>
    default 0 ((fun o => length (peer_subs o)) <$> peers st !! p)) in
  for_each (fun i => peer_listener p i cb) (seq 0 n).

Definition emit_data (c : nat) (cb : DataCallback) : M unit :=
  let* subs := gets (fun st =>
    default [] (conn_subs <$> dataConns st !! c)) in
  for_each (fun sub => data_listener c sub cb) subs.

Definition emit_media (c : nat) (cb : MediaCallback) : M unit :=
  let* subs := gets (fun st =>
    default [] (conn_subs <$> mediaConns st !! c)) in
  for_each (fun sub => media_listener c sub cb) subs.

(** Modelled from the spec: when the capability confirms that peer [p] is
    open under the identifier [id], it records [id] as [peer.id] and emits
    [open] with it. *)
Definition peerjs_open (p : nat) (id : string) : M unit :=
  do modify (set_peers (alter (fun o => mkPeer (VStr id) (peer_subs o)) p))
  then emit_peer p (PeerOpen id).

(** ** Registry lookups (lines 202-236) *)

(** Each lookup succeeds only on a value of the expected class; otherwise
    it sends its diagnostic event and throws the event's name. *)
Definition getMediaConnection (mediaConnectionID : JsValue) : M nat :=
  let* conn := storage_get mediaConnectionID in
  match conn with
  | VMediaConnection c => ret c
  | _ =>
      do send (MediaConnectionDoesNotExist mediaConnectionID) then
      throw (VStr "MediaConnectionDoesNotExist")
  end.

Definition getStream (streamID : JsValue) : M nat :=
  let* stream := storage_get streamID in
  match stream with
  | VMediaStream s => ret s
  | _ =>
      do send (StreamDoesNotExist streamID) then
      throw (VStr "StreamDoesNotExist")
  end.

Definition getPeer (peerID : JsValue) : M nat :=
  let* peer := storage_get peerID in
  match peer with
  | VPeer p => ret p
  | _ =>
      do send (PeerDoesNotExist peerID) then
      throw (VStr "PeerDoesNotExist")
  end.

(** ** Command handlers (lines 169-200) *)

Definition newPeer (data : PeerCmd) : M unit :=
  let* peer :=
    if truthy (peerID data) then new_Peer (peerID data) else new_Peer None in
  subscribeToPeerEvents (VPeer peer).

Definition connectToPeer (data : PeerCmd) : M unit :=
  let* peer := getPeer (js (local data)) in
  let* conn := peer_connect peer (js (remote data)) in
  handleDataMsg (js (local data)) (VDataConnection conn).

Definition callPeer (data : PeerCmd) : M unit :=
  let* peer := getPeer (js (local data)) in
  let* stream := getStream (js (streamID data)) in
  let* conn := peer_call peer (js (remote data)) stream in
  handleMediaMsg (js (local data)) (VMediaConnection conn).

Definition reconnectToServer (data : PeerCmd) : M unit :=
  let* peer := getPeer (js (peerID data)) in
  peer_reconnect peer.

Definition answerMediaConnection (data : PeerCmd) : M unit :=
  let* mediaConnection := getMediaConnection (js (mediaConnectionID data)) in
  if truthy (streamID data) then
    let* stream := getStream (js (streamID data)) in
    mediaConnection_answer mediaConnection (Some stream)
  else
    mediaConnection_answer mediaConnection None.

(** ** Command dispatcher (lines 23-26) *)

(** [s.charAt(0).toLowerCase() + s.slice(1)].  Strings are byte strings;
    only an ASCII capital changes into an ASCII letter that starts a
    property name of the adapter, so other first bytes are left as they
    are. *)
Definition toLowerCase (a : Ascii.ascii) : Ascii.ascii :=
  let n := Ascii.nat_of_ascii a in
  if ((65 <=? n) && (n <=? 90))%nat then Ascii.ascii_of_nat (n + 32) else a.

Definition lowerFirst (s : string) : string :=
  match s with
  | EmptyString => EmptyString
  | String a rest => String (toLowerCase a) rest
  end.

(** What [this[fname]] can be, for [this] an instance of [PeerPort]. *)
Inductive Member : Type :=
  | MConstructor
  | MHandleMsg
  | MSubscribeToPeerEvents
  | MHandleDataMsg
  | MHandleMediaMsg
  | MNewPeer
  | MConnectToPeer
  | MCallPeer
  | MReconnectToServer
  | MAnswerMediaConnection
  | MObjectReturns      (* inherited; returns normally when called with (msg) *)
  | MObjectThrows       (* inherited; throws TypeError when called with (msg) *)
  | MNotCallable.       (* inherited; its value is not a function *)

(** The public members of the class.  The methods whose name starts with
    [#] are private and are no properties. *)
Definition PeerPort_prototype : list (string * Member) :=
  [ ("constructor", MConstructor);
    ("handleMsg", MHandleMsg);
    ("subscribeToPeerEvents", MSubscribeToPeerEvents);
    ("handleDataMsg", MHandleDataMsg);
    ("handleMediaMsg", MHandleMediaMsg);
    ("newPeer", MNewPeer);
    ("connectToPeer", MConnectToPeer);
    ("callPeer", MCallPeer);
    ("reconnectToServer", MReconnectToServer);
    ("answerMediaConnection", MAnswerMediaConnection) ].

(** The members every object inherits from [Object.prototype].  Called on
    the adapter with a plain message object as sole argument, the lookups
    and conversions return; [__defineGetter__] and [__defineSetter__]
    reject the missing accessor function; [__proto__] is an object. *)
Definition Object_prototype : list (string * Member) :=
  [ ("constructor", MObjectReturns);   (* shadowed by the class's own *)
    ("hasOwnProperty", MObjectReturns);
    ("isPrototypeOf", MObjectReturns);
    ("propertyIsEnumerable", MObjectReturns);
    ("toLocaleString", MObjectReturns);
    ("toString", MObjectReturns);
    ("valueOf", MObjectReturns);
    ("__lookupGetter__", MObjectReturns);
    ("__lookupSetter__", MObjectReturns);
    ("__defineGetter__", MObjectThrows);
    ("__defineSetter__", MObjectThrows);
    ("__proto__", MNotCallable) ].

(** Property lookup along the prototype chain: the first binding wins. *)
Fixpoint find_member (fname : string) (chain : list (string * Member))
    : option Member :=
  match chain with
  | [] => None
  | (name, m) :: chain' =>
      if String.eqb name fname then Some m else find_member fname chain'
  end.

Definition get_property (fname : string) : option Member :=
  find_member fname (PeerPort_prototype ++ Object_prototype).

(** [handleMsg(msg)], called as a method of the adapter, so that [this] is
    the adapter.  [stack] is the number of frames the call stack still
    holds: the engine answers a call that does not fit with a
    [RangeError]. *)
Fixpoint handleMsg (stack : nat) (msg : PeerCmd) : M unit :=
  match stack with
  | 0 => throw (RangeError "Maximum call stack size exceeded")
  | S stack' =>
      let fname := lowerFirst (type msg) in
      match get_property fname with
      | Some MNewPeer => newPeer msg
      | Some MConnectToPeer => connectToPeer msg
      | Some MCallPeer => callPeer msg
      | Some MReconnectToServer => reconnectToServer msg
      | Some MAnswerMediaConnection => answerMediaConnection msg
      | Some MHandleMsg => handleMsg stack' msg
      | Some MSubscribeToPeerEvents => subscribeToPeerEvents (cmd_value msg)
      | Some MHandleDataMsg => handleDataMsg (cmd_value msg) VUndefined
      | Some MHandleMediaMsg => handleMediaMsg (cmd_value msg) VUndefined
      | Some MConstructor =>
          throw (TypeError "Class constructor cannot be invoked without 'new'")
      | Some MObjectReturns => ret tt
      | Some MObjectThrows => throw (TypeError "undefined is not a function")
      | Some MNotCallable | None =>
          throw (TypeError "this[fname] is not a function")
      end
  end.

(** ** Entry points *)

(** Everything that makes the adapter run: a command delivered to
    [handleMsg], or PeerJS emitting an event on an object the adapter
    subscribed to. *)
Inductive Step : Type :=
  | Command (msg : PeerCmd)
  | EmitPeer (peer : nat) (cb : PeerCallback)
  | EmitData (conn : nat) (cb : DataCallback)
  | EmitMedia (conn : nat) (cb : MediaCallback).

Definition exec (stack : nat) (s : Step) : M unit :=
  match s with
  | Command msg => handleMsg stack msg
  | EmitPeer p cb => emit_peer p cb
  | EmitData c cb => emit_data c cb
  | EmitMedia c cb => emit_media c cb
  end.

(** A sequence of steps, each run from the state the one before left; a
    throw of one step does not keep the next from running, since each is a
    separate entry into the adapter.  The events of all steps, in order. *)
Fixpoint run (stack : nat) (steps : list Step) (st : PortState)
    : PortState * list PeerEvent :=
  match steps with
  | [] => (st, [])
  | s :: steps' =>
      let r := exec stack s st in
      let r' := run stack steps' (state_of r) in
      (r'.1, sent_of r ++ r'.2)
  end.

(** ** Vocabulary of the statements *)

(** [v instanceof Peer], and likewise for the other two classes a lookup
    tests. *)
Definition instanceof_Peer (v : JsValue) : bool :=
  match v with VPeer _ => true | _ => false end.
Definition instanceof_MediaConnection (v : JsValue) : bool :=
  match v with VMediaConnection _ => true | _ => false end.
Definition instanceof_MediaStream (v : JsValue) : bool :=
  match v with VMediaStream _ => true | _ => false end.

(** [LookupFails st msg ev], in the words of the specification: in state
    [st], the first handle that command [msg] gives and that the registry
    does not bind to a value of the required class (it is absent, or bound
    to a value of another class) is the one [ev] carries, as the command
    gave it.  A [streamID] that [AnswerMediaConnection] gives counts
    whatever its value, the empty string included; whether the code looks
    that one up is a matter of the theorems. *)
Inductive LookupFails (st : PortState) : PeerCmd -> PeerEvent -> Prop :=
  | connect_no_peer local remote :
      instanceof_Peer (MapStorage.get (storage st) local) = false ->
      LookupFails st (ConnectToPeer local remote)
        (PeerDoesNotExist (VStr local))
  | call_no_peer local remote streamID :
      instanceof_Peer (MapStorage.get (storage st) local) = false ->
      LookupFails st (CallPeer local remote streamID)
        (PeerDoesNotExist (VStr local))
  | call_no_stream local remote streamID :
      instanceof_Peer (MapStorage.get (storage st) local) = true ->
      instanceof_MediaStream (MapStorage.get (storage st) streamID) = false ->
      LookupFails st (CallPeer local remote streamID)
        (StreamDoesNotExist (VStr streamID))
  | reconnect_no_peer peerID :
      instanceof_Peer (MapStorage.get (storage st) peerID) = false ->
      LookupFails st (ReconnectToServer peerID)
        (PeerDoesNotExist (VStr peerID))
  | answer_no_connection mediaConnectionID streamID :
      instanceof_MediaConnection
        (MapStorage.get (storage st) mediaConnectionID) = false ->
      LookupFails st (AnswerMediaConnection mediaConnectionID streamID)
        (MediaConnectionDoesNotExist (VStr mediaConnectionID))
  | answer_no_stream mediaConnectionID streamID :
      instanceof_MediaConnection
        (MapStorage.get (storage st) mediaConnectionID) = true ->
      instanceof_MediaStream (MapStorage.get (storage st) streamID) = false ->
      LookupFails st (AnswerMediaConnection mediaConnectionID (Some streamID))
        (StreamDoesNotExist (VStr streamID)).

(** [preserves R m]: from every state, [m] ends in a state related to it
    by [R], whether it returns or throws. *)
Definition preserves {A} (R : relation PortState) (m : M A) : Prop :=
  forall st, R st (state_of (m st)).

(** Every handle bound in the registry before is still bound after. *)
Definition keys_kept : relation PortState :=
  fun st st' =>
    forall k, is_Some (storage st !! k) -> is_Some (storage st' !! k).

(** The registry is the same map before and after. *)
Definition same_registry : relation PortState :=
  fun st st' => storage st' = storage st.

(** While [peer.id] of peer [p] reads [i]: it still does after, and the
    registry differs at most at the key [i]. *)
Definition same_but (p : nat) (i : JsValue) : relation PortState :=
  fun st st' =>
    id_of st p = i ->
    id_of st' p = i /\
    forall k, VStr k <> i -> storage st' !! k = storage st !! k.


(** The state right after [newPeer]: one more peer, subscribed once, its
    [peerID] variable not yet assigned. *)
Definition created_peer (requested : option string) (st : PortState)
    : PortState :=
  mkState (storage st) (nanoid_seq st) (drawn st)
    (peers st ++ [mkPeer (js requested) [VUndefined]])
    (dataConns st) (mediaConns st) (calls st ++ [NewPeerCall requested]).

(** The names of the five command handlers, and of the inherited methods
    that return when [handleMsg] calls them. *)
Definition handler_names : list string :=
  [ "newPeer"; "connectToPeer"; "callPeer"; "reconnectToServer";
    "answerMediaConnection" ].
Definition returning_Object_methods : list string :=
  [ "hasOwnProperty"; "isPrototypeOf"; "propertyIsEnumerable";
    "toLocaleString"; "toString"; "valueOf"; "__lookupGetter__";
    "__lookupSetter__" ].

(** ** Sample states *)

(** A generator that yields ["a"], ["b"], ["c"], ... *)
Definition sample_ids (n : nat) : string :=
  String (Ascii.ascii_of_nat (97 + n)) "".

(** The adapter right after construction. *)
Definition fresh_port : PortState := mkState ∅ sample_ids 0 [] [] [] [].

(** One open peer ["abc"], one stream ["s1"], one incoming call ["m1"]. *)
Definition sample_port : PortState :=
  mkState
    (<["abc" := VPeer 0]> (<["s1" := VMediaStream 0]>
      (<["m1" := VMediaConnection 0]> ∅)))
    sample_ids 0
    [mkPeer (VStr "abc") [VStr "abc"]]
    [mkConn (VStr "xyz") []]
    [mkConn (VStr "xyz") [("m1", VStr "abc")]]
    [NewPeerCall None].

(** [sample_port] after [ConnectToPeer{local: "abc", remote: "xyz"}]: the
    new data connection 1 carries the subscription [("a", "abc")]. *)
Definition sample_channel : PortState :=
  state_of (handleMsg 1 (ConnectToPeer "abc" "xyz") sample_port).

(** [fresh_port] after [NewPeer{}], before PeerJS has opened the peer. *)
Definition sample_created : PortState :=
  state_of (handleMsg 1 (NewPeer None) fresh_port).

(** * Further definitions *)

(** ** Construction (lines 13-21) *)

(** [new PeerPort(send, subscribe)], without a storage argument: the
    registry is a new, empty [MapStorage]; nothing was drawn, no PeerJS
    object exists.  [ids] is what [nanoid] is going to yield. *)
Definition new_PeerPort (ids : nat -> string) : PortState :=
  mkState ∅ ids 0 [] [] [] [].


(** ** Vocabulary of the further statements *)

(** [sample_port] after [CallPeer{local: "abc", remote: "xyz", streamID:
    "s1"}]: the new media connection 1 is registered under ["a"]. *)
Definition sample_calling : PortState :=
  state_of (handleMsg 1 (CallPeer "abc" "xyz" "s1") sample_port).

(** The message [msg] under another tag. *)
Definition retag (t : string) (msg : PeerCmd) : PeerCmd :=
  mkCmd t (peerID msg) (local msg) (remote msg) (streamID msg)
    (mediaConnectionID msg).

(** [reports_at_most_a_failure st r]: the outcome [r] of a command run from
    [st] either sent nothing, or threw the name of the one
    [*DoesNotExist] event it sent and left the state as it was. *)
Definition reports_at_most_a_failure (st : PortState)
    (r : Result unit * PortState * list PeerEvent) : Prop :=
  sent_of r = [] \/
  exists ev,
    r = (Throw (VStr (Event.type ev)), st, [ev]) /\
    Event.type ev ∈
      ["PeerDoesNotExist"; "MediaConnectionDoesNotExist";
       "StreamDoesNotExist"].

(** ** Reachable states *)

Definition peerjs_assigns_id (p : nat) (v : JsValue) (st : PortState)
    : PortState :=
  set_peers (alter (fun o => mkPeer v (peer_subs o)) p) st.


(** [k] is one of the identifiers [nanoid] has yielded so far. *)
Definition drawn_handle (st : PortState) (k : string) : Prop :=
  exists j, j < drawn st /\ k = nanoid_seq st j.

(** The handle of every subscription of the table was drawn. *)
Definition subs_drawn (st : PortState) (table : list ConnObj) : Prop :=
  forall c o sub,
    table !! c = Some o -> sub ∈ conn_subs o -> drawn_handle st sub.1.

(** Every handle captured by a listener, and every key of the registry
    that is not bound to a peer, was drawn from [nanoid]. *)
Definition handles_drawn (st : PortState) : Prop :=
  subs_drawn st (dataConns st) /\
  subs_drawn st (mediaConns st) /\
  forall k v,
    storage st !! k = Some v -> instanceof_Peer v = false ->
    drawn_handle st k.

(** The generator is the same, it only advanced, and [handles_drawn] was
    kept. *)
Definition grows : relation PortState :=
  fun st st' =>
    nanoid_seq st' = nanoid_seq st /\
    drawn st <= drawn st' /\
    (handles_drawn st -> handles_drawn st').


(** [nanoid] never yields the same identifier twice.  The library only
    makes this overwhelmingly likely; the properties that need it take it
    as a hypothesis. *)
Definition collision_free (st : PortState) : Prop :=
  forall i j, nanoid_seq st i = nanoid_seq st j -> i = j.

(** Whatever the registry holds under the handle of a data subscription is
    the subscription's own connection, or a peer (registered under its
    identifier, which PeerJS or the user chose). *)
Definition owned (st : PortState) : Prop :=
  forall c o sub v,
    dataConns st !! c = Some o -> sub ∈ conn_subs o ->
    storage st !! sub.1 = Some v ->
    v = VDataConnection c \/ instanceof_Peer v = true.

(** Subscriptions of two data connections never captured the same
    handle. *)
Definition distinct_channels (st : PortState) : Prop :=
  forall c c' o o' sub sub',
    dataConns st !! c = Some o -> sub ∈ conn_subs o ->
    dataConns st !! c' = Some o' -> sub' ∈ conn_subs o' ->
    sub.1 = sub'.1 -> c = c'.

Definition consistent (st : PortState) : Prop :=
  handles_drawn st /\ owned st /\ distinct_channels st.

(** Every entry of the registry that is not a peer is still there, with
    the same value. *)
Definition entries_kept : relation PortState :=
  fun st st' =>
    forall k v,
      storage st !! k = Some v -> instanceof_Peer v = false ->
      storage st' !! k = Some v.

(** The generator is the same, it only advanced, and [consistent] was
    kept. *)
Definition evolves : relation PortState :=
  fun st st' =>
    nanoid_seq st' = nanoid_seq st /\
    drawn st <= drawn st' /\
    (collision_free st -> consistent st -> consistent st').

(** As [evolves], and no entry other than a peer was replaced or
    removed. *)
Definition settles : relation PortState :=
  fun st st' =>
    nanoid_seq st' = nanoid_seq st /\
    drawn st <= drawn st' /\
    (collision_free st -> consistent st ->
     consistent st' /\ entries_kept st st').


(** A generator without collisions: "h", "h'", "h''", ... *)
Definition sample_unique_ids (n : nat) : string :=
  String.append "h" (Nat.iter n (String.append "'") "").

(** A peer is created and opened as "abc", connects to "xyz", and the
    connection opens. *)
Definition sample_session : PortState :=
  (run 1
     [ Command (NewPeer None);
       EmitPeer 0 (PeerOpen "abc");
       Command (ConnectToPeer "abc" "xyz");
       EmitData 0 DataOpen ]
     (new_PeerPort sample_unique_ids)).1.

(** * Properties *)

(** ** A session *)

(** A peer is created and opened as ["abc"]; a command names a peer that
    does not exist; a channel to ["xyz"] is opened and receives a wrapped
    value and a text; the peer closes. *)
Example session :
  (run 2
     [ Command (NewPeer None);
       EmitPeer 0 (PeerOpen "abc");
       Command (ConnectToPeer "abd" "xyz");
       Command (ConnectToPeer "abc" "xyz");
       EmitData 0 DataOpen;
       EmitData 0 (DataData (VJsonData (VStr "hi")));
       EmitData 0 (DataData (VStr "hello"));
       EmitData 0 DataClose;
       EmitPeer 0 PeerClose ]
     fresh_port).2 =
  [ PeerOpened (VStr "abc");
    PeerDoesNotExist (VStr "abd");
    DataOpened "a" (VStr "abc") (VStr "xyz");
    DataReceivedJSON "a" (VStr "abc") (VStr "xyz") (VStr "hi");
    DataReceivedBlob "a" "b" (VStr "abc") (VStr "xyz") "string";
    DataClosed "a" (VStr "abc") (VStr "xyz");
    PeerClosed (VStr "abc") ].
Proof. reflexivity. Qed.

(** ** The monad *)

Lemma bind_Return {A B} (m : M A) (k : A -> M B) st a st1 out1 :
  m st = (Return a, st1, out1) ->
  bind m k st =
    (result_of (k a st1), state_of (k a st1), out1 ++ sent_of (k a st1)).
Proof.
  intros H. unfold bind, result_of, state_of, sent_of. rewrite H.
  destruct (k a st1) as [[r st2] out2]. reflexivity.
Qed.

Lemma bind_Throw {A B} (m : M A) (k : A -> M B) st e st1 out1 :
  m st = (Throw e, st1, out1) -> bind m k st = (Throw e, st1, out1).
Proof. intros H. unfold bind. rewrite H. reflexivity. Qed.

Lemma bind_ret_tt (m : M unit) st : bind m (fun _ => ret tt) st = m st.
Proof.
  unfold bind, ret.
  destruct (m st) as [[[[]|e] st1] out]; rewrite ?app_nil_r; reflexivity.
Qed.

Lemma for_each_single {A} (f : A -> M unit) x st : for_each f [x] st = f x st.
Proof. apply bind_ret_tt. Qed.

Lemma bind_gets {A B} (f : PortState -> A) (k : A -> M B) st :
  bind (gets f) k st = k (f st) st.
Proof.
  unfold bind, gets. destruct (k (f st) st) as [[r st1] out]. reflexivity.
Qed.

Lemma bind_modify {B} (f : PortState -> PortState) (k : unit -> M B) st :
  bind (modify f) k st = k tt (f st).
Proof.
  unfold bind, modify. destruct (k tt (f st)) as [[r st1] out]. reflexivity.
Qed.

(** ** Dispatch of the declared commands *)

Lemma handleMsg_dispatch n msg :
  handleMsg (S n) msg =
  match get_property (lowerFirst (type msg)) with
  | Some MNewPeer => newPeer msg
  | Some MConnectToPeer => connectToPeer msg
  | Some MCallPeer => callPeer msg
  | Some MReconnectToServer => reconnectToServer msg
  | Some MAnswerMediaConnection => answerMediaConnection msg
  | Some MHandleMsg => handleMsg n msg
  | Some MSubscribeToPeerEvents => subscribeToPeerEvents (cmd_value msg)
  | Some MHandleDataMsg => handleDataMsg (cmd_value msg) VUndefined
  | Some MHandleMediaMsg => handleMediaMsg (cmd_value msg) VUndefined
  | Some MConstructor =>
      throw (TypeError "Class constructor cannot be invoked without 'new'")
  | Some MObjectReturns => ret tt
  | Some MObjectThrows => throw (TypeError "undefined is not a function")
  | Some MNotCallable | None =>
      throw (TypeError "this[fname] is not a function")
  end.
Proof. reflexivity. Qed.

(** ** Failed lookups *)

Lemma getPeer_fails st h :
  instanceof_Peer (MapStorage.get (storage st) h) = false ->
  getPeer (VStr h) st =
    (Throw (VStr "PeerDoesNotExist"), st, [PeerDoesNotExist (VStr h)]).
Proof.
  intros H. unfold getPeer, bind, storage_get, gets; simpl.
  destruct (MapStorage.get (storage st) h); simpl in *; try reflexivity.
  discriminate.
Qed.

Lemma getPeer_finds st h :
  instanceof_Peer (MapStorage.get (storage st) h) = true ->
  exists p, MapStorage.get (storage st) h = VPeer p /\
            getPeer (VStr h) st = (Return p, st, []).
Proof.
  intros H. unfold getPeer, bind, storage_get, gets; simpl.
  destruct (MapStorage.get (storage st) h); simpl in *; try discriminate.
  eauto.
Qed.

Lemma getStream_fails st h :
  instanceof_MediaStream (MapStorage.get (storage st) h) = false ->
  getStream (VStr h) st =
    (Throw (VStr "StreamDoesNotExist"), st, [StreamDoesNotExist (VStr h)]).
Proof.
  intros H. unfold getStream, bind, storage_get, gets; simpl.
  destruct (MapStorage.get (storage st) h); simpl in *; try reflexivity.
  discriminate.
Qed.

Lemma getStream_finds st h :
  instanceof_MediaStream (MapStorage.get (storage st) h) = true ->
  exists s, MapStorage.get (storage st) h = VMediaStream s /\
            getStream (VStr h) st = (Return s, st, []).
Proof.
  intros H. unfold getStream, bind, storage_get, gets; simpl.
  destruct (MapStorage.get (storage st) h); simpl in *; try discriminate.
  eauto.
Qed.

Lemma getMediaConnection_fails st h :
  instanceof_MediaConnection (MapStorage.get (storage st) h) = false ->
  getMediaConnection (VStr h) st =
    (Throw (VStr "MediaConnectionDoesNotExist"), st,
     [MediaConnectionDoesNotExist (VStr h)]).
Proof.
  intros H. unfold getMediaConnection, bind, storage_get, gets; simpl.
  destruct (MapStorage.get (storage st) h); simpl in *; try reflexivity.
  discriminate.
Qed.

Lemma getMediaConnection_finds st h :
  instanceof_MediaConnection (MapStorage.get (storage st) h) = true ->
  exists c, MapStorage.get (storage st) h = VMediaConnection c /\
            getMediaConnection (VStr h) st = (Return c, st, []).
Proof.
  intros H. unfold getMediaConnection, bind, storage_get, gets; simpl.
  destruct (MapStorage.get (storage st) h); simpl in *; try discriminate.
  eauto.
Qed.

(** C4.  A [ConnectToPeer{local, remote}] command whose [local] is not
    registered as a peer session makes the adapter send exactly
    [PeerDoesNotExist{peerID: local}] and throw; the state is left as it
    was: no identifier is drawn from [nanoid], no PeerJS call is made, no
    data connection exists that did not before, and the registry is
    unchanged. *)
Theorem connectToPeer_unregistered n st local remote :
  instanceof_Peer (MapStorage.get (storage st) local) = false ->
  handleMsg (S n) (ConnectToPeer local remote) st =
    (Throw (VStr "PeerDoesNotExist"), st, [PeerDoesNotExist (VStr local)]).
Proof.
  intros H. rewrite handleMsg_dispatch. simpl.
  unfold connectToPeer. apply bind_Throw. simpl. apply getPeer_fails, H.
Qed.

Lemma connectToPeer_unregistered_witness :
  handleMsg 1 (ConnectToPeer "abc" "xyz") fresh_port =
    (Throw (VStr "PeerDoesNotExist"), fresh_port,
     [PeerDoesNotExist (VStr "abc")]).
Proof.
  apply (connectToPeer_unregistered 0 fresh_port "abc" "xyz"). reflexivity.
Defined.

(** The thrown value and the event of a failed lookup.  The one lookup the
    code skips is that of an empty [streamID] in [answerMediaConnection]
    ([if (data.streamID)], line 194). *)
Lemma lookup_failure_throws n st msg ev :
  LookupFails st msg ev ->
  (type msg = "AnswerMediaConnection" -> ev <> StreamDoesNotExist (VStr "")) ->
  handleMsg (S n) msg st = (Throw (VStr (Event.type ev)), st, [ev]).
Proof.
  intros H Hne. rewrite handleMsg_dispatch.
  destruct H
    as [l r Hp | l r s Hp | l r s Hp Hs | i Hp | m s Hm | m s Hm Hs];
    cbn [type lowerFirst ConnectToPeer CallPeer ReconnectToServer
         AnswerMediaConnection Event.type].
  - apply bind_Throw, getPeer_fails, Hp.
  - apply bind_Throw, getPeer_fails, Hp.
  - destruct (getPeer_finds _ _ Hp) as (p & _ & Hget).
    change (get_property _) with (Some MCallPeer). cbv iota.
    unfold callPeer. cbn [CallPeer local remote streamID js].
    rewrite (bind_Return _ _ _ _ _ _ Hget).
    rewrite (bind_Throw _ _ _ _ _ _ (getStream_fails _ _ Hs)). reflexivity.
  - apply bind_Throw, getPeer_fails, Hp.
  - apply bind_Throw, getMediaConnection_fails, Hm.
  - destruct (getMediaConnection_finds _ _ Hm) as (c & _ & Hget).
    change (get_property _) with (Some MAnswerMediaConnection). cbv iota.
    unfold answerMediaConnection.
    cbn [AnswerMediaConnection mediaConnectionID streamID js truthy].
    rewrite (bind_Return _ _ _ _ _ _ Hget).
    destruct (String.eqb_spec s "") as [-> | _];
      [exfalso; exact (Hne eq_refl eq_refl) |].
    cbn [negb].
    rewrite (bind_Throw _ _ _ _ _ _ (getStream_fails _ _ Hs)). reflexivity.
Qed.

(** The claim of C2 fails in two ways.  First, the failed lookup is not
    recovered inside the adapter: [#getPeer] throws the string
    ["PeerDoesNotExist"] (line 233), no handler and no [handleMsg] catches
    it, so [handleMsg] itself ends by throwing and the exception reaches
    whoever delivered the command.  Second, an [AnswerMediaConnection] that
    gives the unregistered handle [""] as [streamID] sends no event at all
    and answers the call: the code never looks that handle up. *)
Lemma lookup_failure_escapes_counterexample :
  (LookupFails fresh_port (ConnectToPeer "abc" "xyz")
     (PeerDoesNotExist (VStr "abc")) /\
   result_of (handleMsg 1 (ConnectToPeer "abc" "xyz") fresh_port)
     = Throw (VStr "PeerDoesNotExist")) /\
  (LookupFails sample_port (AnswerMediaConnection "m1" (Some ""))
     (StreamDoesNotExist (VStr "")) /\
   handleMsg 1 (AnswerMediaConnection "m1" (Some "")) sample_port
     = (Return tt, log_call (AnswerCall 0 None) sample_port, [])).
Proof.
  split; split.
  - apply connect_no_peer. reflexivity.
  - reflexivity.
  - apply answer_no_stream; reflexivity.
  - reflexivity.
Qed.

(** C2 (amended).  Whenever a command gives a handle that the registry does
    not bind to a value of the required class, other than an empty
    [streamID] given to [AnswerMediaConnection], [handleMsg] sends exactly
    one event, a [*DoesNotExist] event carrying the handle as supplied, and
    ends that command by throwing the event's name, a string: the result
    of [handleMsg] itself is that throw, nothing in the adapter catches
    it.  The state is left exactly as it was: no identifier drawn, no
    PeerJS call made, no listener attached, the registry unchanged. *)
Theorem lookup_failure_is_reported n st msg ev :
  LookupFails st msg ev ->
  (type msg = "AnswerMediaConnection" -> ev <> StreamDoesNotExist (VStr "")) ->
  handleMsg (S n) msg st = (Throw (VStr (Event.type ev)), st, [ev]) /\
  Event.type ev ∈
    ["PeerDoesNotExist"; "MediaConnectionDoesNotExist"; "StreamDoesNotExist"].
Proof.
  intros H Hne. split; [exact (lookup_failure_throws n st msg ev H Hne) |].
  destruct H; cbn [Event.type]; set_solver.
Qed.

Lemma lookup_failure_is_reported_witness :
  handleMsg 1 (AnswerMediaConnection "m1" (Some "nope")) sample_port =
    (Throw (VStr "StreamDoesNotExist"), sample_port,
     [StreamDoesNotExist (VStr "nope")]).
Proof.
  apply (lookup_failure_is_reported 0 sample_port
           (AnswerMediaConnection "m1" (Some "nope"))
           (StreamDoesNotExist (VStr "nope"))).
  - apply answer_no_stream; reflexivity.
  - intros _. discriminate.
Defined.

(** ** Answering a media connection *)

(** The claim of C7 fails on an empty [streamID]: the test
    [if (data.streamID)] takes the empty string for an absent field.  With
    ["m1"] registered as a media connection and [""] unregistered,
    [AnswerMediaConnection{mediaConnectionID: "m1", streamID: ""}] sends no
    [StreamDoesNotExist] and does answer, without a stream. *)
Lemma answer_empty_streamID_counterexample :
  instanceof_MediaStream (MapStorage.get (storage sample_port) "") = false /\
  handleMsg 1 (AnswerMediaConnection "m1" (Some "")) sample_port =
    (Return tt, log_call (AnswerCall 0 None) sample_port, []) /\
  handleMsg 1 (AnswerMediaConnection "m1" (Some "")) sample_port <>
    (Throw (VStr "StreamDoesNotExist"), sample_port,
     [StreamDoesNotExist (VStr "")]).
Proof. split; [reflexivity | split; [reflexivity | discriminate]]. Qed.

(** C7, amended.  [AnswerMediaConnection] without a [streamID] and with a
    non-empty [streamID] resolve the media connection in the same way:
    when the handle is absent or of another class both send
    [MediaConnectionDoesNotExist] and throw, with no other effect.  When
    the connection is found, the command without [streamID] answers with
    no stream; the command with [streamID] looks the stream up, answers
    with it when it is registered, and otherwise sends [StreamDoesNotExist]
    and throws without answering. *)
Theorem answer_resolves_connection_identically n st m s :
  s <> "" ->
  (instanceof_MediaConnection (MapStorage.get (storage st) m) = false ->
     handleMsg (S n) (AnswerMediaConnection m None) st =
       (Throw (VStr "MediaConnectionDoesNotExist"), st,
        [MediaConnectionDoesNotExist (VStr m)]) /\
     handleMsg (S n) (AnswerMediaConnection m (Some s)) st =
       (Throw (VStr "MediaConnectionDoesNotExist"), st,
        [MediaConnectionDoesNotExist (VStr m)])) /\
  (forall c, MapStorage.get (storage st) m = VMediaConnection c ->
     handleMsg (S n) (AnswerMediaConnection m None) st =
       (Return tt, log_call (AnswerCall c None) st, []) /\
     (forall x, MapStorage.get (storage st) s = VMediaStream x ->
        handleMsg (S n) (AnswerMediaConnection m (Some s)) st =
          (Return tt, log_call (AnswerCall c (Some x)) st, [])) /\
     (instanceof_MediaStream (MapStorage.get (storage st) s) = false ->
        handleMsg (S n) (AnswerMediaConnection m (Some s)) st =
          (Throw (VStr "StreamDoesNotExist"), st,
           [StreamDoesNotExist (VStr s)]))).
Proof.
  intros Hne. rewrite !handleMsg_dispatch.
  change (get_property _) with (Some MAnswerMediaConnection). cbv iota.
  unfold answerMediaConnection.
  cbn [AnswerMediaConnection mediaConnectionID streamID js truthy].
  destruct (String.eqb_spec s "") as [-> | _]; [contradiction |].
  cbn [negb]. split.
  - intros Hm. split; apply bind_Throw, getMediaConnection_fails, Hm.
  - intros c Hc.
    assert (Hget : getMediaConnection (VStr m) st = (Return c, st, [])).
    { destruct (getMediaConnection_finds st m) as (c' & Hc' & Hget).
      - rewrite Hc. reflexivity.
      - congruence. }
    rewrite !(bind_Return _ _ _ _ _ _ Hget). split; [reflexivity |]. split.
    + intros x Hx.
      destruct (getStream_finds st s) as (x' & Hx' & Hs).
      * rewrite Hx. reflexivity.
      * assert (x' = x) as -> by congruence.
        rewrite (bind_Return _ _ _ _ _ _ Hs). reflexivity.
    + intros Hs.
      rewrite (bind_Throw _ _ _ _ _ _ (getStream_fails _ _ Hs)). reflexivity.
Qed.

Lemma answer_resolves_connection_identically_witness :
  handleMsg 1 (AnswerMediaConnection "m1" None) sample_port =
    (Return tt, log_call (AnswerCall 0 None) sample_port, []) /\
  handleMsg 1 (AnswerMediaConnection "m1" (Some "s1")) sample_port =
    (Return tt, log_call (AnswerCall 0 (Some 0)) sample_port, []) /\
  handleMsg 1 (AnswerMediaConnection "zz" (Some "s1")) sample_port =
    (Throw (VStr "MediaConnectionDoesNotExist"), sample_port,
     [MediaConnectionDoesNotExist (VStr "zz")]).
Proof.
  assert (Hs : "s1" <> "") by discriminate.
  pose proof (answer_resolves_connection_identically 0 sample_port "m1" "s1" Hs)
    as [_ Hfound].
  pose proof (answer_resolves_connection_identically 0 sample_port "zz" "s1" Hs)
    as [Hmissing _].
  destruct (Hfound 0 eq_refl) as (Hnone & Hsome & _).
  destruct (Hmissing eq_refl) as [_ Hfail].
  exact (conj Hnone (conj (Hsome 0 eq_refl) Hfail)).
Defined.

(** ** Unrecognised command tags *)

Ltac not_among :=
  rewrite !not_elem_of_cons; repeat split;
  first [apply not_elem_of_nil | discriminate | congruence].

(** What the prototype chain answers, name by name. *)
Lemma get_property_spec fname :
  match get_property fname with
  | Some MNewPeer | Some MConnectToPeer | Some MCallPeer
  | Some MReconnectToServer | Some MAnswerMediaConnection =>
      (fname ∈ handler_names) /\ (fname ∉ returning_Object_methods)
  | Some MObjectReturns =>
      (fname ∉ handler_names) /\ (fname ∈ returning_Object_methods)
  | _ => (fname ∉ handler_names) /\ (fname ∉ returning_Object_methods)
  end.
Proof.
  unfold get_property, handler_names, returning_Object_methods.
  cbn [PeerPort_prototype Object_prototype app find_member].
  repeat lazymatch goal with
  | |- context [String.eqb ?a fname] =>
      destruct (String.eqb_spec a fname) as [<- | ?];
      [ try solve [split; first [solve [repeat constructor] | not_among]];
        try congruence
      | ]
  end.
  split; not_among.
Qed.

Lemma returning_method_returns n msg st :
  lowerFirst (type msg) ∈ returning_Object_methods ->
  handleMsg (S n) msg st = (Return tt, st, []).
Proof.
  intros Hin. rewrite handleMsg_dispatch.
  pose proof (get_property_spec (lowerFirst (type msg))) as Hspec.
  destruct (get_property (lowerFirst (type msg))) as [[]|];
    solve [reflexivity | tauto].
Qed.

(** The claim of C9 fails on the tag ["ToString"]: [this["toString"]] is
    the method every object inherits, so the call returns and nothing is
    raised. *)
Lemma toString_tag_counterexample :
  (lowerFirst "ToString" ∉ handler_names) /\
  handleMsg 1 (mkCmd "ToString" None None None None None) fresh_port =
    (Return tt, fresh_port, []).
Proof. split; [unfold handler_names; not_among | reflexivity]. Qed.

(** C9, amended.  A command whose tag, with its first character lowered,
    names none of the five handlers makes [handleMsg] send no event,
    whatever it resolves to.  It raises an exception, unless the name is
    one of the methods inherited from [Object.prototype] that return
    ([hasOwnProperty], [isPrototypeOf], [propertyIsEnumerable],
    [toLocaleString], [toString], [valueOf], [__lookupGetter__],
    [__lookupSetter__]): then [handleMsg] returns and has no effect. *)
Theorem unrecognised_tag_sends_nothing n msg st :
  lowerFirst (type msg) ∉ handler_names ->
  sent_of (handleMsg n msg st) = [] /\
  (lowerFirst (type msg) ∉ returning_Object_methods ->
     exists e, result_of (handleMsg n msg st) = Throw e) /\
  (lowerFirst (type msg) ∈ returning_Object_methods ->
     handleMsg (S n) msg st = (Return tt, st, [])).
Proof.
  intros Hh. split; [| split; [| apply returning_method_returns]].
  - induction n as [| n IH]; [reflexivity |].
    rewrite handleMsg_dispatch.
    pose proof (get_property_spec (lowerFirst (type msg))) as Hspec.
    destruct (get_property (lowerFirst (type msg))) as [[]|];
      solve [reflexivity | tauto | exact IH].
  - intros Hq. induction n as [| n IH]; [eexists; reflexivity |].
    rewrite handleMsg_dispatch.
    pose proof (get_property_spec (lowerFirst (type msg))) as Hspec.
    destruct (get_property (lowerFirst (type msg))) as [[]|];
      solve [eexists; reflexivity | exact IH | tauto].
Qed.

Lemma unrecognised_tag_sends_nothing_witness :
  sent_of (handleMsg 3 (mkCmd "Hangup" None None None None None) sample_port)
    = [] /\
  exists e,
    result_of (handleMsg 3 (mkCmd "Hangup" None None None None None)
                 sample_port) = Throw e.
Proof.
  assert (H : lowerFirst (type (mkCmd "Hangup" None None None None None))
              ∉ handler_names) by (unfold handler_names; cbn; not_among).
  destruct (unrecognised_tag_sends_nothing 3 _ sample_port H) as (Hs & Ht & _).
  split; [exact Hs |].
  apply Ht. unfold returning_Object_methods. cbn. not_among.
Defined.

(** ** Events of data and media connections *)

Lemma emit_data_single st conn o sub cb :
  dataConns st !! conn = Some o -> conn_subs o = [sub] ->
  emit_data conn cb st = data_listener conn sub cb st.
Proof.
  intros Ho Hs. unfold emit_data. rewrite bind_gets, Ho. cbn -[for_each].
  rewrite Hs.
  exact (for_each_single (fun s => data_listener conn s cb) sub st).
Qed.

Lemma emit_media_single st conn o sub cb :
  mediaConns st !! conn = Some o -> conn_subs o = [sub] ->
  emit_media conn cb st = media_listener conn sub cb st.
Proof.
  intros Ho Hs. unfold emit_media. rewrite bind_gets, Ho. cbn -[for_each].
  rewrite Hs.
  exact (for_each_single (fun s => media_listener conn s cb) sub st).
Qed.

(** Every payload is reported by exactly one event, a [DataReceivedJSON] or
    a [DataReceivedBlob]. *)
Lemma payload_classification_total conn sub data st :
  exists e,
    sent_of (data_listener conn sub (DataData data) st) = [e] /\
    (Event.type e = "DataReceivedJSON" \/ Event.type e = "DataReceivedBlob").
Proof.
  destruct sub as [dataID local].
  destruct data; eexists; (split; [reflexivity | cbn; auto]).
Qed.

(** The wrappers and the wrapper objects are reported inline. *)
Lemma wrapped_payload_is_json conn dataID local st data :
  match data with
  | VJsonData _ | VStringObject _ | VNumberObject _ | VBooleanObject _ => True
  | _ => False
  end ->
  data_listener conn (dataID, local) (DataData data) st =
    (Return tt, st,
     [DataReceivedJSON dataID local
        (default VUndefined (peer <$> dataConns st !! conn))
        match data with VJsonData d => d | _ => data end]).
Proof. destruct data; intros []; reflexivity. Qed.

(** C1 (the code departs from the claim).  A payload that is the primitive
    string ["hello"] is no instance of [String], so it falls through every
    test of the [data] listener to the last branch: a blob handle is drawn
    from [nanoid], the payload is stored under it, and the event sent is
    [DataReceivedBlob] with content type ["string"], not
    [DataReceivedJSON]. *)
Theorem hello_is_received_as_blob st conn o dataID local :
  dataConns st !! conn = Some o -> conn_subs o = [(dataID, local)] ->
  emit_data conn (DataData (VStr "hello")) st =
    (Return tt,
     set_storage
       (fun m => MapStorage.set m (nanoid_seq st (drawn st)) (VStr "hello"))
       (set_drawn (S (drawn st)) st),
     [DataReceivedBlob dataID (nanoid_seq st (drawn st)) local (peer o)
        "string"]).
Proof.
  intros Ho Hs. rewrite (emit_data_single _ _ _ _ _ Ho Hs).
  cbn. rewrite Ho. reflexivity.
Qed.

Lemma hello_is_received_as_blob_witness :
  emit_data 1 (DataData (VStr "hello")) sample_channel =
    (Return tt,
     set_storage (fun m => MapStorage.set m "b" (VStr "hello"))
       (set_drawn 2 sample_channel),
     [DataReceivedBlob "a" "b" (VStr "abc") (VStr "xyz") "string"]).
Proof.
  apply (hello_is_received_as_blob sample_channel 1
           (mkConn (VStr "xyz") [("a", VStr "abc")]) "a" (VStr "abc"));
    reflexivity.
Defined.

(** C3 (the code departs from the claim).  When PeerJS emits [close] or
    [error] on a media connection, the event the adapter sends is tagged
    ["MediaStreamClosed"], resp. ["MediaStreamError"]: neither
    ["MediaConnectionClosed"] nor ["MediaConnectionError"], and no member
    of the declared union [PeerEvent]. *)
Theorem media_close_and_error_tags st conn o mediaConnectionID local err :
  mediaConns st !! conn = Some o ->
  conn_subs o = [(mediaConnectionID, local)] ->
  emit_media conn MediaClose st =
    (Return tt, st, [MediaStreamClosed mediaConnectionID local (peer o)]) /\
  emit_media conn (MediaErr err) st =
    (Return tt, st, [MediaStreamError mediaConnectionID local (peer o) err]) /\
  Event.type (MediaStreamClosed mediaConnectionID local (peer o))
    = "MediaStreamClosed" /\
  Event.type (MediaStreamError mediaConnectionID local (peer o) err)
    = "MediaStreamError" /\
  Event.declared (MediaStreamClosed mediaConnectionID local (peer o)) = false /\
  Event.declared (MediaStreamError mediaConnectionID local (peer o) err)
    = false.
Proof.
  intros Ho Hs. rewrite !(emit_media_single _ _ _ _ _ Ho Hs).
  cbn. rewrite Ho. repeat split.
Qed.

Lemma media_close_and_error_tags_witness :
  emit_media 0 MediaClose sample_port =
    (Return tt, sample_port,
     [MediaStreamClosed "m1" (VStr "abc") (VStr "xyz")]) /\
  Event.type (MediaStreamClosed "m1" (VStr "abc") (VStr "xyz"))
    <> "MediaConnectionClosed".
Proof.
  destruct (media_close_and_error_tags sample_port 0
              (mkConn (VStr "xyz") [("m1", VStr "abc")]) "m1" (VStr "abc")
              VUndefined eq_refl eq_refl) as (Hclose & _).
  split; [exact Hclose | discriminate].
Defined.

Lemma attached_data_sub st d od sub :
  dataConns st !! d = Some od ->
  dataConns (set_dataConns (alter (add_sub sub) d) st) !! d
    = Some (add_sub sub od).
Proof. intros H. cbn. rewrite list_lookup_alter_eq, H. reflexivity. Qed.

(** C5.  [handleMediaMsg] draws one handle from [nanoid] and binds it to the
    media connection in the registry at once, before PeerJS emits anything
    on the connection.  [handleDataMsg] draws one handle too but leaves the
    registry as it was; the handle is bound to the data connection when
    PeerJS emits [open], and [DataOpened{dataID, local, remote}] is sent
    then; [close] and [error] leave the registry as it is, and a payload
    binds at most the blob handle it draws. *)
Theorem registration_timing st local m d od :
  dataConns st !! d = Some od ->
  conn_subs od = [] ->
  let h := nanoid_seq st (drawn st) in
  let attached_media :=
    set_mediaConns (alter (add_sub (h, local)) m)
      (set_storage (fun s => MapStorage.set s h (VMediaConnection m))
         (set_drawn (S (drawn st)) st)) in
  let attached_data :=
    set_dataConns (alter (add_sub (h, local)) d)
      (set_drawn (S (drawn st)) st) in
  (handleMediaMsg local (VMediaConnection m) st
     = (Return tt, attached_media, []) /\
   MapStorage.get (storage attached_media) h = VMediaConnection m) /\
  (handleDataMsg local (VDataConnection d) st
     = (Return tt, attached_data, []) /\
   storage attached_data = storage st /\
   emit_data d DataOpen attached_data =
     (Return tt,
      set_storage (fun s => MapStorage.set s h (VDataConnection d))
        attached_data,
      [DataOpened h local (peer od)]) /\
   emit_data d DataClose attached_data =
     (Return tt, attached_data, [DataClosed h local (peer od)]) /\
   (forall err,
      emit_data d (DataErr err) attached_data =
        (Return tt, attached_data, [DataError h local (peer od) err])) /\
   (forall data,
      nanoid_seq st (S (drawn st)) <> h ->
      storage (state_of (emit_data d (DataData data) attached_data)) !! h
        = storage st !! h)).
Proof.
  intros Hd Hsubs h attached_media attached_data.
  split; [split | split; [| split]].
  - reflexivity.
  - unfold attached_media, MapStorage.get, MapStorage.set. cbn.
    rewrite lookup_insert_eq. reflexivity.
  - reflexivity.
  - reflexivity.
  - assert (Ho : dataConns attached_data !! d = Some (add_sub (h, local) od))
      by (apply attached_data_sub; exact Hd).
    assert (Hs : conn_subs (add_sub (h, local) od) = [(h, local)])
      by (cbn; rewrite Hsubs; reflexivity).
    repeat split; intros; rewrite (emit_data_single _ _ _ _ _ Ho Hs);
      try (cbn; rewrite list_lookup_alter_eq, Hd; reflexivity).
    destruct data; cbn; unfold MapStorage.set;
      rewrite ?lookup_insert_ne by assumption; reflexivity.
Qed.

Lemma registration_timing_witness :
  MapStorage.get
    (storage (state_of (handleMediaMsg (VStr "abc") (VMediaConnection 0)
                          sample_port))) "a" = VMediaConnection 0 /\
  storage (state_of (handleDataMsg (VStr "abc") (VDataConnection 0)
                       sample_port)) = storage sample_port /\
  emit_data 0 DataOpen
    (state_of (handleDataMsg (VStr "abc") (VDataConnection 0) sample_port)) =
    (Return tt,
     set_storage (fun s => MapStorage.set s "a" (VDataConnection 0))
       (state_of (handleDataMsg (VStr "abc") (VDataConnection 0) sample_port)),
     [DataOpened "a" (VStr "abc") (VStr "xyz")]).
Proof.
  destruct (registration_timing sample_port (VStr "abc")
              0 0 (mkConn (VStr "xyz") []) eq_refl eq_refl)
    as [[_ Hreg] (_ & Hsame & Hopen & _)].
  exact (conj Hreg (conj Hsame Hopen)).
Defined.

(** ** Events of a peer *)

Lemma emit_peer_single st p o v cb :
  peers st !! p = Some o -> peer_subs o = [v] ->
  emit_peer p cb st = peer_listener p 0 cb st.
Proof.
  intros Ho Hs. unfold emit_peer. rewrite bind_gets, Ho. cbn -[for_each].
  rewrite Hs. exact (for_each_single (fun i => peer_listener p i cb) 0 st).
Qed.

Lemma read_peerID_single st p o v :
  peers st !! p = Some o -> peer_subs o = [v] ->
  read_peerID p 0 st = (Return v, st, []).
Proof.
  intros Ho Hs. unfold read_peerID, gets. rewrite Ho. cbn. rewrite Hs.
  reflexivity.
Qed.

Lemma alter_last {A} (f : A -> A) (l : list A) x :
  alter f (length l) (l ++ [x]) = l ++ [f x].
Proof. induction l as [| y l IH]; cbn; [reflexivity | f_equal; exact IH]. Qed.

Lemma newPeer_creates n st requested :
  handleMsg (S n) (NewPeer requested) st =
    (Return tt,
     created_peer (if truthy requested then requested else None) st, []).
Proof.
  rewrite handleMsg_dispatch.
  change (get_property _) with (Some MNewPeer). cbv iota.
  unfold newPeer, created_peer. cbn [NewPeer peerID].
  destruct (truthy requested); cbn; unfold set_peers, log_call; cbn;
    rewrite alter_last; reflexivity.
Qed.

Lemma created_peer_lookup requested st :
  peers (created_peer requested st) !! length (peers st)
    = Some (mkPeer (js requested) [VUndefined]).
Proof. cbn. apply list_lookup_middle. reflexivity. Qed.

Lemma peer_open_single st p o v i :
  peers st !! p = Some o -> peer_subs o = [v] ->
  emit_peer p (PeerOpen i) st =
    (Return tt,
     set_storage (fun m => MapStorage.set m i (VPeer p))
       (set_peers (alter (fun o => mkPeer (id o) [VStr i]) p) st),
     [PeerOpened (VStr i)]).
Proof.
  intros Ho Hs. rewrite (emit_peer_single _ _ _ _ _ Ho Hs).
  cbn. rewrite list_lookup_alter_eq, Ho. cbn. rewrite Hs. cbn.
  do 3 f_equal. unfold set_storage, set_peers. cbn. f_equal.
  apply list_alter_ext; [| reflexivity]. intros o' Ho'.
  assert (o' = o) as -> by congruence. rewrite Hs. reflexivity.
Qed.

Lemma peer_close_single st p o v :
  peers st !! p = Some o -> peer_subs o = [v] ->
  emit_peer p PeerClose st =
    (Return tt, state_of (storage_delete (id o) st), [PeerClosed v]).
Proof.
  intros Ho Hs. rewrite (emit_peer_single _ _ _ _ _ Ho Hs).
  unfold peer_listener, peer_id. rewrite bind_gets. unfold id_of.
  rewrite Ho. cbn [fmap option_fmap option_map default Datatypes.id].
  destruct (id o); cbn; rewrite Ho; cbn; rewrite Hs; reflexivity.
Qed.

Lemma peer_error_single st p o v err :
  peers st !! p = Some o -> peer_subs o = [v] ->
  emit_peer p (PeerErr err) st = (Return tt, st, [PeerError v err]).
Proof.
  intros Ho Hs. rewrite (emit_peer_single _ _ _ _ _ Ho Hs).
  cbn. rewrite Ho. cbn. rewrite Hs. reflexivity.
Qed.

Lemma peer_disconnected_single st p o v i :
  peers st !! p = Some o -> peer_subs o = [v] ->
  emit_peer p (PeerDisconnect i) st =
    (Return tt, st, [PeerDisconnected (VStr i)]).
Proof.
  intros Ho Hs. rewrite (emit_peer_single _ _ _ _ _ Ho Hs). reflexivity.
Qed.

Lemma peer_connection_single st p o v c :
  peers st !! p = Some o -> peer_subs o = [v] ->
  emit_peer p (PeerConnection c) st = handleDataMsg v (VDataConnection c) st.
Proof.
  intros Ho Hs. rewrite (emit_peer_single _ _ _ _ _ Ho Hs).
  unfold peer_listener.
  rewrite (bind_Return _ _ _ _ _ _ (read_peerID_single _ _ _ _ Ho Hs)).
  destruct (handleDataMsg v (VDataConnection c) st) as [[r st1] out].
  reflexivity.
Qed.

Lemma peer_call_single st p o v c :
  peers st !! p = Some o -> peer_subs o = [v] ->
  emit_peer p (PeerCall c) st = handleMediaMsg v (VMediaConnection c) st.
Proof.
  intros Ho Hs. rewrite (emit_peer_single _ _ _ _ _ Ho Hs).
  unfold peer_listener.
  rewrite (bind_Return _ _ _ _ _ _ (read_peerID_single _ _ _ _ Ho Hs)).
  destruct (handleMediaMsg v (VMediaConnection c) st) as [[r st1] out].
  reflexivity.
Qed.




Lemma attached_media_sub st c oc sub :
  mediaConns st !! c = Some oc ->
  mediaConns (set_mediaConns (alter (add_sub sub) c) st) !! c
    = Some (add_sub sub oc).
Proof. intros H. cbn. rewrite list_lookup_alter_eq, H. reflexivity. Qed.

(** C10.  For a peer subscribed once, whose variable [peerID] holds [v]:
    [PeerClosed] and [PeerError] carry [v]; an incoming connection or call
    is attached with [local = v], and the events of that connection carry
    [v] as [local]; [PeerDisconnected] carries the identifier PeerJS
    passes, whatever [v] is.  The [open] listener is what assigns the
    variable, and a new subscription starts with the variable
    [undefined]: a [close] or [error] that comes before [open] is reported
    with an undefined [peerID]. *)
Theorem peerID_is_the_captured_value st p o v :
  peers st !! p = Some o ->
  peer_subs o = [v] ->
  let h := nanoid_seq st (drawn st) in
  (sent_of (emit_peer p PeerClose st) = [PeerClosed v] /\
   forall err,
     emit_peer p (PeerErr err) st = (Return tt, st, [PeerError v err])) /\
  (forall i,
     emit_peer p (PeerDisconnect i) st =
       (Return tt, st, [PeerDisconnected (VStr i)])) /\
  (forall c oc,
     dataConns st !! c = Some oc -> conn_subs oc = [] ->
     let st1 := state_of (emit_peer p (PeerConnection c) st) in
     emit_peer p (PeerConnection c) st =
       handleDataMsg v (VDataConnection c) st /\
     sent_of (emit_data c DataOpen st1) = [DataOpened h v (peer oc)] /\
     sent_of (emit_data c DataClose st1) = [DataClosed h v (peer oc)]) /\
  (forall c oc,
     mediaConns st !! c = Some oc -> conn_subs oc = [] ->
     let st1 := state_of (emit_peer p (PeerCall c) st) in
     emit_peer p (PeerCall c) st =
       handleMediaMsg v (VMediaConnection c) st /\
     sent_of (emit_media c MediaClose st1) =
       [MediaStreamClosed h v (peer oc)]) /\
  (forall i,
     sent_of (emit_peer p (PeerOpen i) st) = [PeerOpened (VStr i)] /\
     peers (state_of (emit_peer p (PeerOpen i) st)) !! p
       = Some (mkPeer (id o) [VStr i])) /\
  (forall n requested st0,
     peer_subs <$>
       peers (state_of (handleMsg (S n) (NewPeer requested) st0))
         !! length (peers st0)
     = Some [VUndefined]).
Proof.
  intros Ho Hs h.
  split; [split | split; [| split; [| split; [| split]]]].
  - rewrite (peer_close_single _ _ _ _ Ho Hs). reflexivity.
  - intros err. apply (peer_error_single _ _ _ _ _ Ho Hs).
  - intros i. apply (peer_disconnected_single _ _ _ _ _ Ho Hs).
  - intros c oc Hc Hnone st1. unfold st1.
    rewrite (peer_connection_single _ _ _ _ _ Ho Hs).
    split; [reflexivity |].
    split; rewrite (emit_data_single _ c (add_sub (h, v) oc) (h, v));
      first [ apply attached_data_sub; exact Hc
            | cbn; rewrite ?list_lookup_alter_eq, ?Hc, ?Hnone; reflexivity ].
  - intros c oc Hc Hnone st1. unfold st1.
    rewrite (peer_call_single _ _ _ _ _ Ho Hs).
    split; [reflexivity |].
    rewrite (emit_media_single _ c (add_sub (h, v) oc) (h, v)).
    + cbn. rewrite list_lookup_alter_eq, Hc. reflexivity.
    + apply (attached_media_sub (set_storage _ (set_drawn _ st)) c oc (h, v)).
      exact Hc.
    + cbn. rewrite Hnone. reflexivity.
  - intros i. rewrite (peer_open_single _ _ _ _ _ Ho Hs). cbn.
    rewrite list_lookup_alter_eq, Ho. split; reflexivity.
  - intros n requested st0. rewrite newPeer_creates. cbn [state_of fst snd].
    rewrite created_peer_lookup. reflexivity.
Qed.

Lemma peerID_is_the_captured_value_witness :
  sent_of (emit_peer 0 PeerClose sample_created) = [PeerClosed VUndefined] /\
  emit_peer 0 (PeerErr (VError "Error" "lost")) sample_created =
    (Return tt, sample_created, [PeerError VUndefined (VError "Error" "lost")]).
Proof.
  destruct (peerID_is_the_captured_value sample_created 0
              (mkPeer VUndefined [VUndefined]) VUndefined eq_refl eq_refl)
    as [[Hclose Herr] _].
  exact (conj Hclose (Herr _)).
Defined.

(** ** What may delete from the registry *)

Section Preserves.
Context (R : relation PortState) `{!PreOrder R}.

Lemma preserves_bind {A B} (m : M A) (k : A -> M B) :
  preserves R m -> (forall a, preserves R (k a)) -> preserves R (bind m k).
Proof.
  intros Hm Hk st. specialize (Hm st). unfold bind, state_of in *.
  destruct (m st) as [[[a | e] st1] out1]; cbn in *; [| exact Hm].
  specialize (Hk a st1). unfold state_of in Hk.
  destruct (k a st1) as [[r st2] out2]; cbn in *.
  etransitivity; eassumption.
Qed.

Lemma preserves_still {A} (m : M A) :
  (forall st, state_of (m st) = st) -> preserves R m.
Proof. intros H st. rewrite H. reflexivity. Qed.

Lemma preserves_for_each {A} (f : A -> M unit) (l : list A) :
  (forall x, preserves R (f x)) -> preserves R (for_each f l).
Proof.
  intros Hf. induction l as [| x l IH]; cbn [for_each].
  - apply preserves_still. reflexivity.
  - apply preserves_bind; [apply Hf | intros _; exact IH].
Qed.
End Preserves.

#[local] Instance keys_kept_preorder : PreOrder keys_kept.
Proof. split; [intros st k H; exact H | intros a b c Hab Hbc k H; auto]. Qed.

#[local] Instance same_registry_preorder : PreOrder same_registry.
Proof.
  split; [intros st; reflexivity |].
  intros a b c Hab Hbc. unfold same_registry in *. congruence.
Qed.

#[local] Instance same_but_preorder p i : PreOrder (same_but p i).
Proof.
  split.
  - intros st Hi. split; [exact Hi | reflexivity].
  - intros a b c Hab Hbc Hi.
    destruct (Hab Hi) as [Hi' Hk]. destruct (Hbc Hi') as [Hi'' Hk'].
    split; [exact Hi'' |]. intros k Hne. rewrite Hk', Hk; auto.
Qed.


















Lemma peer_close_listener_same_but p i j :
  preserves (same_but p i) (peer_listener p j PeerClose).
Proof.
  intros st Hi. unfold peer_listener, peer_id.
  rewrite bind_gets, Hi.
  destruct i; cbn; (split; [exact Hi | intros k Hne]); try reflexivity.
  unfold MapStorage.delete. apply lookup_delete_ne. congruence.
Qed.

Lemma emit_peer_close_same_but p st k :
  VStr k <> id_of st p ->
  storage (state_of (emit_peer p PeerClose st)) !! k = storage st !! k.
Proof.
  intros Hne.
  assert (H : preserves (same_but p (id_of st p)) (emit_peer p PeerClose)).
  { unfold emit_peer. apply preserves_bind; [typeclasses eauto | |].
    - apply preserves_still; first [typeclasses eauto | intros ?; reflexivity].
    - intros n. apply preserves_for_each; [typeclasses eauto |].
      intros j. apply peer_close_listener_same_but. }
  destruct (H st eq_refl) as [_ Hk]. apply Hk, Hne.
Qed.

(** The deletion that does happen. *)
Lemma peer_close_deletes_example :
  storage sample_port !! "abc" = Some (VPeer 0) /\
  storage (state_of (emit_peer 0 PeerClose sample_port)) !! "abc" = None.
Proof. split; reflexivity. Qed.

(** * Further properties *)

(** ** The registry *)

(** X1.  [MapStorage]: [get] after [set] yields the value set, [set]
    replaces, [get] after [delete] yields [undefined], a second [delete]
    changes nothing, other keys are not affected, and a key set to
    [undefined] reads like a key that was deleted. *)
Theorem MapStorage_laws (m : gmap string JsValue) k k' v v' :
  MapStorage.get (MapStorage.set m k v) k = v /\
  (k <> k' -> MapStorage.get (MapStorage.set m k v) k' = MapStorage.get m k') /\
  MapStorage.set (MapStorage.set m k v) k v' = MapStorage.set m k v' /\
  MapStorage.get (MapStorage.delete m k) k = VUndefined /\
  (k <> k' ->
     MapStorage.get (MapStorage.delete m k) k' = MapStorage.get m k') /\
  MapStorage.delete (MapStorage.delete m k) k = MapStorage.delete m k /\
  MapStorage.get (MapStorage.set m k VUndefined) k
    = MapStorage.get (MapStorage.delete m k) k /\
  MapStorage.get (∅ : gmap string JsValue) k = VUndefined.
Proof.
  unfold MapStorage.get, MapStorage.set, MapStorage.delete.
  repeat split.
  - rewrite lookup_insert_eq. reflexivity.
  - intros Hne. rewrite lookup_insert_ne by exact Hne. reflexivity.
  - apply insert_insert_eq.
  - rewrite lookup_delete_eq. reflexivity.
  - intros Hne. rewrite lookup_delete_ne by exact Hne. reflexivity.
  - apply delete_delete_eq.
  - rewrite lookup_insert_eq, lookup_delete_eq. reflexivity.
Qed.

(** ** Commands that succeed *)

(** [connectToPeer] on a registered peer: one [peer.connect], one handle
    drawn, one subscription on the new connection. *)
Lemma connectToPeer_connects n st loc rem p :
  MapStorage.get (storage st) loc = VPeer p ->
  handleMsg (S n) (ConnectToPeer loc rem) st
    = (Return tt,
       mkState (storage st) (nanoid_seq st) (S (drawn st)) (peers st)
         (dataConns st
            ++ [mkConn (VStr rem) [(nanoid_seq st (drawn st), VStr loc)]])
         (mediaConns st) (calls st ++ [ConnectCall p (VStr rem)]),
       []).
Proof.
  intros Hp. rewrite handleMsg_dispatch.
  change (get_property _) with (Some MConnectToPeer). cbv iota.
  unfold connectToPeer. cbn [ConnectToPeer local remote js].
  assert (Hget : getPeer (VStr loc) st = (Return p, st, [])).
  { destruct (getPeer_finds st loc) as (p' & Hp' & Hget).
    - rewrite Hp. reflexivity.
    - congruence. }
  rewrite (bind_Return _ _ _ _ _ _ Hget). cbn.
  unfold set_dataConns, log_call, set_drawn. cbn.
  rewrite alter_last. reflexivity.
Qed.

(** X2.  [ConnectToPeer{local, remote}] with [local] registered as a peer
    calls [peer.connect(remote)] once, draws one handle and sends nothing;
    the registry is unchanged.  When the new channel opens, the handle is
    bound to it and [DataOpened] carries that handle, [local], and the
    [remote] of the command. *)
Theorem connectToPeer_then_open n st loc rem p :
  MapStorage.get (storage st) loc = VPeer p ->
  let h := nanoid_seq st (drawn st) in
  let c := length (dataConns st) in
  let connecting :=
    mkState (storage st) (nanoid_seq st) (S (drawn st)) (peers st)
      (dataConns st ++ [mkConn (VStr rem) [(h, VStr loc)]])
      (mediaConns st) (calls st ++ [ConnectCall p (VStr rem)]) in
  handleMsg (S n) (ConnectToPeer loc rem) st
    = (Return tt, connecting, []) /\
  emit_data c DataOpen connecting =
    (Return tt,
     set_storage (fun m => MapStorage.set m h (VDataConnection c)) connecting,
     [DataOpened h (VStr loc) (VStr rem)]).
Proof.
  intros Hp h c connecting. split.
  - apply connectToPeer_connects. exact Hp.
  - rewrite (emit_data_single connecting c
               (mkConn (VStr rem) [(h, VStr loc)]) (h, VStr loc)).
    + cbn. rewrite list_lookup_middle by reflexivity. reflexivity.
    + cbn. apply list_lookup_middle. reflexivity.
    + reflexivity.
Qed.

Lemma connectToPeer_then_open_witness :
  handleMsg 1 (ConnectToPeer "abc" "xyz") sample_port
    = (Return tt, sample_channel, []) /\
  emit_data 1 DataOpen sample_channel =
    (Return tt,
     set_storage (fun m => MapStorage.set m "a" (VDataConnection 1))
       sample_channel,
     [DataOpened "a" (VStr "abc") (VStr "xyz")]).
Proof.
  exact (connectToPeer_then_open 0 sample_port "abc" "xyz" 0 eq_refl).
Defined.

Lemma getPeer_resolves st h p :
  MapStorage.get (storage st) h = VPeer p ->
  getPeer (VStr h) st = (Return p, st, []).
Proof.
  intros H. destruct (getPeer_finds st h) as (p' & Hp' & Hget).
  - rewrite H. reflexivity.
  - congruence.
Qed.

Lemma getStream_resolves st h s :
  MapStorage.get (storage st) h = VMediaStream s ->
  getStream (VStr h) st = (Return s, st, []).
Proof.
  intros H. destruct (getStream_finds st h) as (s' & Hs' & Hget).
  - rewrite H. reflexivity.
  - congruence.
Qed.

Lemma getMediaConnection_resolves st h c :
  MapStorage.get (storage st) h = VMediaConnection c ->
  getMediaConnection (VStr h) st = (Return c, st, []).
Proof.
  intros H. destruct (getMediaConnection_finds st h) as (c' & Hc' & Hget).
  - rewrite H. reflexivity.
  - congruence.
Qed.

(** X3.  [CallPeer{local, remote, streamID}] with [local] registered as a peer
    and [streamID] as a stream calls [peer.call(remote, stream)] once with
    that stream, draws one handle, binds it to the new media connection at
    once and sends nothing.  A stream that then arrives on the connection
    is bound to the next handle drawn, and [MediaStreamReceived] carries
    both handles, [local] and the [remote] of the command. *)
Theorem callPeer_then_stream n st loc rem sid p s s' :
  MapStorage.get (storage st) loc = VPeer p ->
  MapStorage.get (storage st) sid = VMediaStream s ->
  let h := nanoid_seq st (drawn st) in
  let h' := nanoid_seq st (S (drawn st)) in
  let c := length (mediaConns st) in
  let calling :=
    mkState (<[h := VMediaConnection c]> (storage st)) (nanoid_seq st)
      (S (drawn st)) (peers st) (dataConns st)
      (mediaConns st ++ [mkConn (VStr rem) [(h, VStr loc)]])
      (calls st ++ [CallCall p (VStr rem) s]) in
  handleMsg (S n) (CallPeer loc rem sid) st = (Return tt, calling, []) /\
  emit_media c (MediaStream s') calling =
    (Return tt,
     set_storage (fun m => MapStorage.set m h' (VMediaStream s'))
       (set_drawn (S (S (drawn st))) calling),
     [MediaStreamReceived h h' (VStr loc) (VStr rem)]).
Proof.
  intros Hp Hs h h' c calling. split.
  - rewrite handleMsg_dispatch.
    change (get_property _) with (Some MCallPeer). cbv iota.
    unfold callPeer. cbn [CallPeer local remote streamID js].
    rewrite (bind_Return _ _ _ _ _ _ (getPeer_resolves _ _ _ Hp)).
    cbn [result_of state_of sent_of fst snd].
    rewrite (bind_Return _ _ _ _ _ _ (getStream_resolves _ _ _ Hs)).
    cbn. unfold set_mediaConns, log_call, set_drawn, set_storage. cbn.
    rewrite alter_last. reflexivity.
  - rewrite (emit_media_single calling c
               (mkConn (VStr rem) [(h, VStr loc)]) (h, VStr loc)).
    + cbn. rewrite list_lookup_middle by reflexivity. reflexivity.
    + cbn. apply list_lookup_middle. reflexivity.
    + reflexivity.
Qed.

Lemma callPeer_then_stream_witness :
  handleMsg 1 (CallPeer "abc" "xyz" "s1") sample_port
    = (Return tt, sample_calling, []) /\
  emit_media 1 (MediaStream 7) sample_calling =
    (Return tt,
     set_storage (fun m => MapStorage.set m "b" (VMediaStream 7))
       (set_drawn 2 sample_calling),
     [MediaStreamReceived "a" "b" (VStr "abc") (VStr "xyz")]).
Proof.
  exact (callPeer_then_stream 0 sample_port "abc" "xyz" "s1" 0 0 7
           eq_refl eq_refl).
Defined.

(** X4.  An incoming call is registered by the [call] listener itself: right
    after it, before anything is emitted on the connection,
    [AnswerMediaConnection] with the handle drawn finds the connection and
    answers it. *)
Theorem incoming_call_can_be_answered n st p o v c :
  peers st !! p = Some o ->
  peer_subs o = [v] ->
  let h := nanoid_seq st (drawn st) in
  let ringing := state_of (emit_peer p (PeerCall c) st) in
  emit_peer p (PeerCall c) st = (Return tt, ringing, []) /\
  MapStorage.get (storage ringing) h = VMediaConnection c /\
  handleMsg (S n) (AnswerMediaConnection h None) ringing =
    (Return tt, log_call (AnswerCall c None) ringing, []).
Proof.
  intros Ho Hs h ringing. unfold ringing.
  rewrite (peer_call_single _ _ _ _ _ Ho Hs). cbn [state_of fst snd].
  assert (Hreg : MapStorage.get
            (storage (state_of (handleMediaMsg v (VMediaConnection c) st))) h
          = VMediaConnection c).
  { unfold MapStorage.get. cbn. unfold MapStorage.set.
    rewrite lookup_insert_eq. reflexivity. }
  split; [reflexivity | split; [exact Hreg |]].
  - rewrite handleMsg_dispatch.
    change (get_property _) with (Some MAnswerMediaConnection). cbv iota.
    unfold answerMediaConnection.
    cbn [AnswerMediaConnection mediaConnectionID streamID js truthy].
    rewrite (bind_Return _ _ _ _ _ _
               (getMediaConnection_resolves _ h c Hreg)).
    reflexivity.
Qed.

Lemma incoming_call_can_be_answered_witness :
  handleMsg 1 (AnswerMediaConnection "a" None)
    (state_of (emit_peer 0 (PeerCall 0) sample_port)) =
    (Return tt,
     log_call (AnswerCall 0 None)
       (state_of (emit_peer 0 (PeerCall 0) sample_port)), []).
Proof.
  apply (incoming_call_can_be_answered 0 sample_port 0
           (mkPeer (VStr "abc") [VStr "abc"]) (VStr "abc") 0 eq_refl eq_refl).
Defined.

(** ** What is registered can be used *)

(** X5.  A stream received on a media connection is bound to the handle
    that [MediaStreamReceived] carries, and a later
    [AnswerMediaConnection] naming that handle answers with that very
    stream. *)
Theorem received_stream_can_be_used n st c o mcid loc s m c' :
  mediaConns st !! c = Some o ->
  conn_subs o = [(mcid, loc)] ->
  let h := nanoid_seq st (drawn st) in
  let received := state_of (emit_media c (MediaStream s) st) in
  h <> "" ->
  h <> m ->
  MapStorage.get (storage st) m = VMediaConnection c' ->
  emit_media c (MediaStream s) st =
    (Return tt, received, [MediaStreamReceived mcid h loc (peer o)]) /\
  MapStorage.get (storage received) h = VMediaStream s /\
  handleMsg (S n) (AnswerMediaConnection m (Some h)) received =
    (Return tt, log_call (AnswerCall c' (Some s)) received, []).
Proof.
  intros Ho Hs h received Hne Hm Hc'. unfold received.
  rewrite (emit_media_single _ _ _ _ _ Ho Hs). cbn [media_listener].
  set (st1 := state_of
         (bind nanoid (fun streamID =>
            bind (storage_set streamID (VMediaStream s)) (fun _ =>
            bind (conn_peer mediaConns c) (fun remote =>
            send (MediaStreamReceived mcid streamID loc remote)))) st)).
  assert (Hst1 : storage st1 = <[h := VMediaStream s]> (storage st))
    by reflexivity.
  assert (Hreg : MapStorage.get (storage st1) h = VMediaStream s).
  { unfold MapStorage.get. rewrite Hst1, lookup_insert_eq. reflexivity. }
  assert (Hold : MapStorage.get (storage st1) m = VMediaConnection c').
  { unfold MapStorage.get. rewrite Hst1, lookup_insert_ne by exact Hm.
    exact Hc'. }
  split; [| split; [exact Hreg |]].
  - cbn. rewrite Ho. reflexivity.
  - rewrite handleMsg_dispatch.
    change (get_property _) with (Some MAnswerMediaConnection). cbv iota.
    unfold answerMediaConnection.
    cbn [AnswerMediaConnection mediaConnectionID streamID js truthy].
    rewrite (bind_Return _ _ _ _ _ _
               (getMediaConnection_resolves _ m c' Hold)).
    destruct (String.eqb_spec h "") as [-> | _]; [contradiction |].
    cbn [negb result_of state_of sent_of fst snd].
    rewrite (bind_Return _ _ _ _ _ _ (getStream_resolves _ h s Hreg)).
    reflexivity.
Qed.

Lemma received_stream_can_be_used_witness :
  handleMsg 1 (AnswerMediaConnection "m1" (Some "a"))
    (state_of (emit_media 0 (MediaStream 5) sample_port)) =
    (Return tt,
     log_call (AnswerCall 0 (Some 5))
       (state_of (emit_media 0 (MediaStream 5) sample_port)), []).
Proof.
  apply (received_stream_can_be_used 0 sample_port 0
           (mkConn (VStr "xyz") [("m1", VStr "abc")]) "m1" (VStr "abc") 5
           "m1" 0 eq_refl eq_refl); [discriminate | discriminate | reflexivity].
Defined.

(** X6.  Whenever a payload is reported by [DataReceivedBlob], the handle
    [blobID] of the event is the one just drawn, the registry binds it to
    the payload (to the wrapped value for a [BlobData]), [contentType] is
    the [typeof] of what is stored, and the event names the channel's own
    [dataID], [local] and [remote]. *)
Theorem blob_can_be_fetched st c o dataID loc data dataID' blobID l r ct :
  dataConns st !! c = Some o ->
  conn_subs o = [(dataID, loc)] ->
  sent_of (emit_data c (DataData data) st)
    = [DataReceivedBlob dataID' blobID l r ct] ->
  let payload := match data with VBlobData d => d | _ => data end in
  blobID = nanoid_seq st (drawn st) /\
  MapStorage.get (storage (state_of (emit_data c (DataData data) st))) blobID
    = payload /\
  ct = typeof payload /\
  dataID' = dataID /\ l = loc /\ r = peer o.
Proof.
  intros Ho Hs. rewrite (emit_data_single _ _ _ _ _ Ho Hs).
  destruct data; cbn; rewrite Ho; cbn; intros [= <- <- <- <- <-];
    unfold MapStorage.get, MapStorage.set; rewrite lookup_insert_eq;
    repeat split.
Qed.

Lemma blob_can_be_fetched_witness :
  MapStorage.get
    (storage (state_of (emit_data 1 (DataData (VStr "hello")) sample_channel)))
    "b" = VStr "hello".
Proof.
  apply (blob_can_be_fetched sample_channel 1
           (mkConn (VStr "xyz") [("a", VStr "abc")]) "a" (VStr "abc")
           (VStr "hello") "a" "b" (VStr "abc") (VStr "xyz") "string"
           eq_refl eq_refl eq_refl).
Defined.

(** X7.  Whenever a payload is reported by [DataReceivedJSON], it was a
    [JsonData] or a [String], [Number] or [Boolean] wrapper object (never
    a primitive); the event carries the wrapped value of a [JsonData] and
    the wrapper object itself otherwise; nothing is stored and no handle
    is drawn: the state is as before. *)
Theorem json_is_passed_through st c o dataID loc data dataID' l r d :
  dataConns st !! c = Some o ->
  conn_subs o = [(dataID, loc)] ->
  sent_of (emit_data c (DataData data) st)
    = [DataReceivedJSON dataID' l r d] ->
  state_of (emit_data c (DataData data) st) = st /\
  d = match data with VJsonData j => j | _ => data end /\
  typeof data = "object" /\
  dataID' = dataID /\ l = loc /\ r = peer o.
Proof.
  intros Ho Hs. rewrite (emit_data_single _ _ _ _ _ Ho Hs).
  destruct data; cbn; rewrite Ho; cbn; intros [= <- <- <- <-];
    repeat split.
Qed.

Lemma json_is_passed_through_witness :
  state_of (emit_data 1 (DataData (VStringObject "hello")) sample_channel)
    = sample_channel.
Proof.
  apply (json_is_passed_through sample_channel 1
           (mkConn (VStr "xyz") [("a", VStr "abc")]) "a" (VStr "abc")
           (VStringObject "hello") "a" (VStr "abc") (VStr "xyz")
           (VStringObject "hello") eq_refl eq_refl eq_refl).
Defined.

(** ** The life of a peer *)

(** X8.  [PeerDisconnected] is only reported: the peer stays registered, so
    that a [ReconnectToServer] that follows finds it and calls
    [peer.reconnect()], without any event. *)
Theorem disconnected_peer_can_reconnect n st p o v i p' :
  peers st !! p = Some o ->
  peer_subs o = [v] ->
  MapStorage.get (storage st) i = VPeer p' ->
  run (S n) [EmitPeer p (PeerDisconnect i); Command (ReconnectToServer i)] st
    = (log_call (ReconnectCall p') st, [PeerDisconnected (VStr i)]).
Proof.
  intros Ho Hs Hi. cbn [run exec].
  rewrite (peer_disconnected_single _ _ _ _ _ Ho Hs).
  cbn [state_of sent_of fst snd].
  rewrite handleMsg_dispatch.
  change (get_property _) with (Some MReconnectToServer). cbv iota.
  unfold reconnectToServer. cbn [ReconnectToServer peerID js].
  rewrite (bind_Return _ _ _ _ _ _ (getPeer_resolves _ _ _ Hi)).
  reflexivity.
Qed.

Lemma disconnected_peer_can_reconnect_witness :
  run 1 [EmitPeer 0 (PeerDisconnect "abc"); Command (ReconnectToServer "abc")]
    sample_port
    = (log_call (ReconnectCall 0) sample_port,
       [PeerDisconnected (VStr "abc")]).
Proof.
  apply (disconnected_peer_can_reconnect 0 sample_port 0
           (mkPeer (VStr "abc") [VStr "abc"]) (VStr "abc") "abc" 0
           eq_refl eq_refl eq_refl).
Defined.

Lemma alter_alter {A} (f g : A -> A) (l : list A) i :
  alter f i (alter g i l) = alter (fun x => f (g x)) i l.
Proof.
  revert i. induction l as [| x l IH]; intros [| i]; cbn; try reflexivity.
  f_equal. apply IH.
Qed.

Lemma peerjs_open_single st p o v i :
  peers st !! p = Some o -> peer_subs o = [v] ->
  peerjs_open p i st =
    (Return tt,
     set_storage (fun m => MapStorage.set m i (VPeer p))
       (set_peers (alter (fun _ => mkPeer (VStr i) [VStr i]) p) st),
     [PeerOpened (VStr i)]).
Proof.
  intros Ho Hs. unfold peerjs_open. rewrite bind_modify.
  rewrite (peer_open_single _ p (mkPeer (VStr i) (peer_subs o)) v).
  - unfold set_storage, set_peers. cbn. rewrite alter_alter. reflexivity.
  - cbn. rewrite list_lookup_alter_eq, Ho. reflexivity.
  - exact Hs.
Qed.

Lemma opened_peer_lookup st p o i :
  peers st !! p = Some o ->
  peers (set_storage (fun m => MapStorage.set m i (VPeer p))
           (set_peers (alter (fun _ => mkPeer (VStr i) [VStr i]) p) st)) !! p
    = Some (mkPeer (VStr i) [VStr i]).
Proof. intros Ho. cbn. rewrite list_lookup_alter_eq, Ho. reflexivity. Qed.

(** X9.  [ConnectToPeer] on the identifier [i] of a new peer fails with
    [PeerDoesNotExist] between [NewPeer] and the peer's [open] event (unless
    [i] was registered as a peer already), and after [open] it succeeds and
    calls [peer.connect].  After the peer's [close] event it fails again
    if [peer.id] still read [i] when [close] fired; if PeerJS had changed
    [peer.id] by then, [i] stays registered and the command still succeeds,
    on the closed peer. *)
Theorem peer_is_usable_while_registered n st requested i rem v :
  instanceof_Peer (MapStorage.get (storage st) i) = false ->
  let p := length (peers st) in
  let created := state_of (handleMsg (S n) (NewPeer requested) st) in
  let opened := state_of (peerjs_open p i created) in
  let closed :=
    state_of (emit_peer p PeerClose (peerjs_assigns_id p v opened)) in
  handleMsg (S n) (ConnectToPeer i rem) created =
    (Throw (VStr "PeerDoesNotExist"), created, [PeerDoesNotExist (VStr i)]) /\
  (result_of (handleMsg (S n) (ConnectToPeer i rem) opened) = Return tt /\
   sent_of (handleMsg (S n) (ConnectToPeer i rem) opened) = [] /\
   calls (state_of (handleMsg (S n) (ConnectToPeer i rem) opened))
     = calls opened ++ [ConnectCall p (VStr rem)]) /\
  (v = VStr i ->
   handleMsg (S n) (ConnectToPeer i rem) closed =
     (Throw (VStr "PeerDoesNotExist"), closed,
      [PeerDoesNotExist (VStr i)])) /\
  (v <> VStr i ->
   result_of (handleMsg (S n) (ConnectToPeer i rem) closed) = Return tt /\
   sent_of (handleMsg (S n) (ConnectToPeer i rem) closed) = [] /\
   calls (state_of (handleMsg (S n) (ConnectToPeer i rem) closed))
     = calls closed ++ [ConnectCall p (VStr rem)]).
Proof.
  intros Hi p created opened closed.
  unfold closed, opened, created. clear closed opened created.
  rewrite newPeer_creates.
  set (r := if truthy requested then requested else None).
  cbn [state_of fst snd].
  pose proof (created_peer_lookup r st) as Hnew. fold p in Hnew.
  rewrite (peerjs_open_single _ p _ VUndefined i Hnew eq_refl).
  cbn [state_of fst snd].
  set (opened := set_storage _ _).
  pose proof (opened_peer_lookup (created_peer r st) p _ i Hnew) as Hopened.
  fold opened in Hopened.
  assert (Hreg : MapStorage.get (storage opened) i = VPeer p).
  { unfold MapStorage.get, opened. cbn. unfold MapStorage.set.
    rewrite lookup_insert_eq. reflexivity. }
  assert (Hclosing :
            peers (peerjs_assigns_id p v opened) !! p
              = Some (mkPeer v [VStr i])).
  { cbn. cbn in Hopened. rewrite list_lookup_alter_eq, Hopened.
    reflexivity. }
  rewrite (peer_close_single _ p _ (VStr i) Hclosing eq_refl).
  cbn [state_of fst snd id].
  split; [| split; [| split]].
  - refine (lookup_failure_throws n (created_peer r st) (ConnectToPeer i rem)
              (PeerDoesNotExist (VStr i))
              (connect_no_peer (created_peer r st) i rem Hi) _).
    discriminate.
  - rewrite (connectToPeer_connects n opened i rem p Hreg).
    repeat split.
  - intros ->.
    refine (lookup_failure_throws n _ (ConnectToPeer i rem)
              (PeerDoesNotExist (VStr i)) (connect_no_peer _ i rem _) _);
      [| discriminate].
    unfold MapStorage.get. cbn. unfold MapStorage.delete.
    rewrite lookup_delete_eq. reflexivity.
  - intros Hv.
    match goal with
    | |- context [handleMsg _ _ ?c] => set (closed := c)
    end.
    assert (Hkept : MapStorage.get (storage closed) i = VPeer p).
    { unfold closed. destruct v; try exact Hreg.
      unfold MapStorage.get. cbn. unfold MapStorage.delete, MapStorage.set.
      rewrite lookup_delete_ne by congruence.
      rewrite lookup_insert_eq. reflexivity. }
    rewrite (connectToPeer_connects n closed i rem p Hkept).
    repeat split.
Qed.

Lemma peer_is_usable_while_registered_witness :
  handleMsg 1 (ConnectToPeer "abc" "xyz") sample_created =
    (Throw (VStr "PeerDoesNotExist"), sample_created,
     [PeerDoesNotExist (VStr "abc")]) /\
  sent_of (handleMsg 1 (ConnectToPeer "abc" "xyz")
             (state_of (peerjs_open 0 "abc" sample_created))) = [] /\
  result_of
    (handleMsg 1 (ConnectToPeer "abc" "xyz")
       (state_of
          (emit_peer 0 PeerClose
             (peerjs_assigns_id 0 VNull
                (state_of (peerjs_open 0 "abc" sample_created))))))
    = Return tt.
Proof.
  destruct (peer_is_usable_while_registered 0 fresh_port None "abc" "xyz"
              VNull eq_refl)
    as (Hbefore & (_ & Hwhile & _) & _ & Hafter).
  destruct Hafter as (Hstill & _); [discriminate |].
  exact (conj Hbefore (conj Hwhile Hstill)).
Defined.

(** X10.  When a peer opens a second time under another identifier, the first
    identifier stays bound to it: both resolve to the peer, and [close]
    removes only the identifier [peer.id] reads then, so the first one
    keeps resolving to the closed peer. *)
Theorem reopened_peer_keeps_its_old_identifier st p o v i1 i2 :
  peers st !! p = Some o ->
  peer_subs o = [v] ->
  i1 <> i2 ->
  let first := state_of (peerjs_open p i1 st) in
  let second := state_of (peerjs_open p i2 first) in
  let closed := state_of (emit_peer p PeerClose second) in
  sent_of (peerjs_open p i2 first) = [PeerOpened (VStr i2)] /\
  MapStorage.get (storage second) i1 = VPeer p /\
  MapStorage.get (storage second) i2 = VPeer p /\
  sent_of (emit_peer p PeerClose second) = [PeerClosed (VStr i2)] /\
  MapStorage.get (storage closed) i1 = VPeer p /\
  MapStorage.get (storage closed) i2 = VUndefined.
Proof.
  intros Ho Hs Hne first second closed.
  unfold closed, second, first. clear closed second first.
  rewrite (peerjs_open_single _ _ _ _ i1 Ho Hs). cbn [state_of fst snd].
  pose proof (opened_peer_lookup st p o i1 Ho) as H1.
  rewrite (peerjs_open_single _ _ _ _ i2 H1 eq_refl).
  cbn [state_of sent_of fst snd].
  pose proof (opened_peer_lookup _ p _ i2 H1) as H2.
  rewrite (peer_close_single _ p _ (VStr i2) H2 eq_refl).
  cbn [state_of sent_of fst snd id storage_delete modify].
  unfold MapStorage.get. cbn. unfold MapStorage.set, MapStorage.delete.
  repeat split.
  - rewrite lookup_insert_ne, lookup_insert_eq by congruence. reflexivity.
  - rewrite lookup_insert_eq. reflexivity.
  - rewrite lookup_delete_ne, lookup_insert_ne, lookup_insert_eq
      by congruence. reflexivity.
  - rewrite lookup_delete_eq. reflexivity.
Qed.

Lemma reopened_peer_keeps_its_old_identifier_witness :
  MapStorage.get
    (storage (state_of (emit_peer 0 PeerClose
       (state_of (peerjs_open 0 "def"
          (state_of (peerjs_open 0 "abc" sample_created)))))))
    "abc" = VPeer 0.
Proof.
  assert (Hne : "abc" <> "def") by discriminate.
  destruct (reopened_peer_keeps_its_old_identifier sample_created 0
              (mkPeer VUndefined [VUndefined]) VUndefined "abc" "def"
              eq_refl eq_refl Hne) as (_ & _ & _ & _ & Hstale & _).
  exact Hstale.
Defined.

(** ** What a command sends *)

Lemma getPeer_cases h st :
  (exists p, getPeer h st = (Return p, st, [])) \/
  getPeer h st = (Throw (VStr "PeerDoesNotExist"), st, [PeerDoesNotExist h]).
Proof.
  unfold getPeer, storage_get. rewrite bind_gets.
  destruct (match h with VStr s => MapStorage.get (storage st) s
            | _ => VUndefined end);
    first [right; reflexivity | left; eexists; reflexivity].
Qed.

Lemma getStream_cases h st :
  (exists s, getStream h st = (Return s, st, [])) \/
  getStream h st =
    (Throw (VStr "StreamDoesNotExist"), st, [StreamDoesNotExist h]).
Proof.
  unfold getStream, storage_get. rewrite bind_gets.
  destruct (match h with VStr s => MapStorage.get (storage st) s
            | _ => VUndefined end);
    first [right; reflexivity | left; eexists; reflexivity].
Qed.

Lemma getMediaConnection_cases h st :
  (exists c, getMediaConnection h st = (Return c, st, [])) \/
  getMediaConnection h st =
    (Throw (VStr "MediaConnectionDoesNotExist"), st,
     [MediaConnectionDoesNotExist h]).
Proof.
  unfold getMediaConnection, storage_get. rewrite bind_gets.
  destruct (match h with VStr s => MapStorage.get (storage st) s
            | _ => VUndefined end);
    first [right; reflexivity | left; eexists; reflexivity].
Qed.

Ltac failure_reported :=
  right; cbn [result_of state_of sent_of fst snd app];
  lazymatch goal with
  | |- exists ev, (_, _, [?e]) = _ /\ _ =>
      exists e; split; [reflexivity | cbn; set_solver]
  end.

(** X11.  Whatever the message, [handleMsg] sends at most one event, and only
    to report a failed lookup: then it throws the name of that event and
    leaves the state as it was.  A command that returns has sent
    nothing. *)
Theorem command_sends_only_a_failed_lookup n msg st :
  reports_at_most_a_failure st (handleMsg n msg st) /\
  (result_of (handleMsg n msg st) = Return tt ->
   sent_of (handleMsg n msg st) = []).
Proof.
  assert (H : reports_at_most_a_failure st (handleMsg n msg st)).
  { induction n as [| n IH]; [left; reflexivity |].
    rewrite handleMsg_dispatch.
    destruct (get_property (lowerFirst (type msg))) as [[]|];
      try (left; reflexivity); try exact IH.
    - left. unfold newPeer. destruct (truthy (peerID msg)); reflexivity.
    - unfold connectToPeer.
      destruct (getPeer_cases (js (local msg)) st) as [[p Hp] | Hp].
      + rewrite (bind_Return _ _ _ _ _ _ Hp). left. reflexivity.
      + rewrite (bind_Throw _ _ _ _ _ _ Hp). failure_reported.
    - unfold callPeer.
      destruct (getPeer_cases (js (local msg)) st) as [[p Hp] | Hp].
      + rewrite (bind_Return _ _ _ _ _ _ Hp).
        cbn [result_of state_of sent_of fst snd app].
        destruct (getStream_cases (js (streamID msg)) st) as [[s Hs] | Hs].
        * rewrite (bind_Return _ _ _ _ _ _ Hs). left. reflexivity.
        * rewrite (bind_Throw _ _ _ _ _ _ Hs). failure_reported.
      + rewrite (bind_Throw _ _ _ _ _ _ Hp). failure_reported.
    - unfold reconnectToServer.
      destruct (getPeer_cases (js (peerID msg)) st) as [[p Hp] | Hp].
      + rewrite (bind_Return _ _ _ _ _ _ Hp). left. reflexivity.
      + rewrite (bind_Throw _ _ _ _ _ _ Hp). failure_reported.
    - unfold answerMediaConnection.
      destruct (getMediaConnection_cases (js (mediaConnectionID msg)) st)
        as [[c Hc] | Hc].
      + rewrite (bind_Return _ _ _ _ _ _ Hc).
        cbn [result_of state_of sent_of fst snd app].
        destruct (truthy (streamID msg)); [| left; reflexivity].
        destruct (getStream_cases (js (streamID msg)) st) as [[s Hs] | Hs].
        * rewrite (bind_Return _ _ _ _ _ _ Hs). left. reflexivity.
        * rewrite (bind_Throw _ _ _ _ _ _ Hs). failure_reported.
      + rewrite (bind_Throw _ _ _ _ _ _ Hc). failure_reported. }
  split; [exact H |].
  intros Hret. destruct H as [H | (ev & H & _)]; [exact H |].
  rewrite H in Hret. discriminate.
Qed.

(** ** Listeners *)

Lemma for_each_returns {A} (f : A -> M unit) (l : list A) st :
  (forall x st', result_of (f x st') = Return tt) ->
  result_of (for_each f l st) = Return tt.
Proof.
  intros Hf. revert st. induction l as [| x l IH]; intros st; [reflexivity |].
  cbn [for_each]. unfold bind.
  pose proof (Hf x st) as Hx. unfold result_of in Hx.
  destruct (f x st) as [[r st1] out1]. cbn in Hx. subst r.
  pose proof (IH st1) as Hl. unfold result_of in Hl.
  destruct (for_each f l st1) as [[r st2] out2]. exact Hl.
Qed.

Lemma data_listener_returns conn sub cb st :
  result_of (data_listener conn sub cb st) = Return tt.
Proof. destruct sub, cb as [| | err | []]; reflexivity. Qed.

Lemma media_listener_returns conn sub cb st :
  result_of (media_listener conn sub cb st) = Return tt.
Proof. destruct sub, cb; reflexivity. Qed.

Lemma peer_listener_returns p i cb st :
  result_of (peer_listener p i cb st) = Return tt.
Proof.
  destruct cb; try reflexivity.
  unfold peer_listener, peer_id. rewrite bind_gets.
  destruct (id_of st p); reflexivity.
Qed.

(** X12.  No listener of the adapter throws: whatever PeerJS emits on a
    peer, a data connection or a media connection, in whatever state, the
    emission returns. *)
Theorem listeners_never_throw st :
  (forall p cb, result_of (emit_peer p cb st) = Return tt) /\
  (forall c cb, result_of (emit_data c cb st) = Return tt) /\
  (forall c cb, result_of (emit_media c cb st) = Return tt).
Proof.
  split; [| split].
  - intros p cb. unfold emit_peer. rewrite bind_gets. apply for_each_returns.
    intros i st'. apply peer_listener_returns.
  - intros c cb. unfold emit_data. rewrite bind_gets. apply for_each_returns.
    intros sub st'. apply data_listener_returns.
  - intros c cb. unfold emit_media. rewrite bind_gets.
    apply for_each_returns.
    intros sub st'. apply media_listener_returns.
Qed.

(** ** Command tags *)

Lemma toLowerCase_idempotent a : toLowerCase (toLowerCase a) = toLowerCase a.
Proof. destruct a as [[] [] [] [] [] [] [] []]; reflexivity. Qed.

Lemma lowerFirst_idempotent s : lowerFirst (lowerFirst s) = lowerFirst s.
Proof.
  destruct s as [| a s]; [reflexivity |]. cbn.
  rewrite toLowerCase_idempotent. reflexivity.
Qed.

(** X13.  The case of the first letter of a command tag does not matter: a
    message whose tag has its first character lowered is handled exactly
    as the message itself. *)
Theorem first_letter_case_is_ignored n msg st :
  handleMsg n (retag (lowerFirst (type msg)) msg) st = handleMsg n msg st.
Proof.
  induction n as [| n IH]; [reflexivity |].
  rewrite !handleMsg_dispatch. cbn [retag type].
  rewrite lowerFirst_idempotent.
  destruct (get_property (lowerFirst (type msg))) as [[]|];
    solve [reflexivity | exact IH].
Qed.

Example lower_case_tag :
  handleMsg 1 (mkCmd "newPeer" None None None None None) fresh_port
    = handleMsg 1 (NewPeer None) fresh_port.
Proof. reflexivity. Qed.

(** ** Where handles come from *)

#[local] Instance grows_preorder : PreOrder grows.
Proof.
  split.
  - intros st. split; [reflexivity | split; [lia | auto]].
  - intros a b c (Hs1 & Hd1 & H1) (Hs2 & Hd2 & H2).
    split; [congruence | split; [lia | auto]].
Qed.


Lemma next_is_drawn st st' :
  nanoid_seq st' = nanoid_seq st -> drawn st < drawn st' ->
  drawn_handle st' (nanoid_seq st (drawn st)).
Proof. intros Hs Hd. exists (drawn st). rewrite Hs. auto. Qed.





























Lemma collision_free_same st st' :
  nanoid_seq st' = nanoid_seq st -> collision_free st -> collision_free st'.
Proof. intros Hs H i j. rewrite Hs. apply H. Qed.

#[local] Instance evolves_preorder : PreOrder evolves.
Proof.
  split.
  - intros st. split; [reflexivity | split; [lia | auto]].
  - intros a b c (Hs1 & Hd1 & H1) (Hs2 & Hd2 & H2).
    split; [congruence | split; [lia |]]. intros Hcf Ha.
    apply H2; [eapply collision_free_same; eauto | auto].
Qed.

#[local] Instance settles_preorder : PreOrder settles.
Proof.
  split.
  - intros st. split; [reflexivity | split; [lia |]].
    intros _ H. split; [exact H |]. intros k v Hk _. exact Hk.
  - intros a b c (Hs1 & Hd1 & H1) (Hs2 & Hd2 & H2).
    split; [congruence | split; [lia |]]. intros Hcf Ha.
    destruct (H1 Hcf Ha) as [Hb Hk1].
    destruct (H2 (collision_free_same _ _ Hs1 Hcf) Hb) as [Hc Hk2].
    split; [exact Hc |]. intros k v Hk Hv. apply Hk2; auto.
Qed.



































Example sample_session_registry :
  map_to_list (storage sample_session)
    = [("abc", VPeer 0); ("h", VDataConnection 0)].
Proof. vm_compute. reflexivity. Qed.

(** ** Deletions from the registry *)







